(** * Settings versioning and persistence engine of the label designer

    A shallow embedding of the storage, diff and per-line font modules of
    the web front end ([storage.js], [repository.js], [font-settings.js])
    together with the properties of its specification, and of the parts
    of [label.js], [printer.js] and [main.js] that decide what is saved,
    sent and selected.

    Conventions of the embedding.
    - A JavaScript string is a [string]; each character stands for one
      UTF-16 code unit (the code units handled here are below 256).
    - A JSON value is a [json] tree.  An object is the list of its own
      enumerable properties in enumeration order, and a flattened record
      is the finite map of its own properties; no field bears the name of
      a member of [Object.prototype].  Numbers are integers.
    - [localStorage] holds JSON texts.  The settings entry is kept as the
      text itself; the history entry is kept as the array that its text
      denotes, [JSON.parse] being the inverse of [JSON.stringify] on the
      arrays of records this program writes.
    - DOM reads are arguments of the functions and DOM writes are left
      out; the line selector that [setFontSettingsPerLine] rebuilds comes
      back as the argument [selected] of its next call.
    - A write to the image database and a read of a file are taken at
      their completion; what the server answers is an argument. *)

From Stdlib Require Import ZArith String Ascii List DecimalString Decimal DecimalNat DecimalZ Znumtheory Zpow_facts.
From Stdlib Require ZmodInv.
From stdpp Require Import gmap strings list fin_maps.

Set Warnings "-register-all".
Open Scope string_scope.

(* ===================================================================== *)
(** * Part I: definitions *)
(* ===================================================================== *)

(** ** JSON values and [JSON.stringify] *)

Inductive json : Type :=
| JNull
| JBool (b : bool)
| JNum (n : Z)
| JStr (s : string)
| JArr (items : list json)
| JObj (props : list (string * json)).

(** The property list of a JavaScript object. *)
Abbreviation object := (list (string * json)).

Definition string_of_Z (n : Z) : string := NilZero.string_of_int (Z.to_int n).
Definition string_of_nat (n : nat) : string := NilZero.string_of_uint (Nat.to_uint n).

Definition dquote : string := String "034"%char "".

Definition hex_digit (n : N) : ascii :=
  if (n <? 10)%N then ascii_of_N (48 + n) else ascii_of_N (87 + n).

(** One character of a quoted JSON string (QuoteJSONString). *)
Definition json_escape_char (c : ascii) : string :=
  let n := N_of_ascii c in
  if (n =? 34)%N then "\" +:+ dquote
  else if (n =? 92)%N then "\\"
  else if (n =? 8)%N then "\b"
  else if (n =? 9)%N then "\t"
  else if (n =? 10)%N then "\n"
  else if (n =? 12)%N then "\f"
  else if (n =? 13)%N then "\r"
  else if (n <? 32)%N then
    "\u00" +:+ String (hex_digit (n / 16)) (String (hex_digit (n mod 16)) "")
  else String c "".

Fixpoint json_escape (s : string) : string :=
  match s with
  | EmptyString => ""
  | String c rest => json_escape_char c +:+ json_escape rest
  end.

Definition json_quote (s : string) : string := dquote +:+ json_escape s +:+ dquote.

Fixpoint JSON_stringify (v : json) : string :=
  match v with
  | JNull => "null"
  | JBool true => "true"
  | JBool false => "false"
  | JNum n => string_of_Z n
  | JStr s => json_quote s
  | JArr items => "[" +:+ String.concat "," (List.map JSON_stringify items) +:+ "]"
  | JObj props =>
      "{" +:+ String.concat ","
                (List.map (fun kv => json_quote (fst kv) +:+ ":" +:+ JSON_stringify (snd kv)) props)
          +:+ "}"
  end.

(** JavaScript truthiness of a JSON value ([x || y] picks [y] when [x] is
    falsy); an absent property reads as [undefined], which is falsy. *)
Definition truthy (v : json) : bool :=
  match v with
  | JNull => false
  | JBool b => b
  | JNum n => negb (n =? 0)%Z
  | JStr s => negb (String.eqb s "")
  | JArr _ | JObj _ => true
  end.

(** [o[k]]: the value of an own property. *)
Fixpoint obj_get (k : string) (o : object) : option json :=
  match o with
  | [] => None
  | (k', v) :: rest => if String.eqb k' k then Some v else obj_get k rest
  end.

(** [o[k] = v]: an existing property keeps its place, a new one goes last. *)
Fixpoint obj_set (k : string) (v : json) (o : object) : object :=
  match o with
  | [] => [(k, v)]
  | (k', v') :: rest =>
      if String.eqb k' k then (k', v) :: rest else (k', v') :: obj_set k v rest
  end.

(** ** Settings persistence and undo history ([storage.js]) *)

Definition MAX_HISTORY : nat := 40.

(** The two [localStorage] entries [LS_KEY] and [LS_HISTORY_KEY]. *)
Record LocalStorage : Type := mkLocalStorage {
  ls_settings : option string;
  ls_history : option (list json)
}.

(** [history = JSON.parse(localStorage.getItem(LS_HISTORY_KEY)) || []],
    with the [catch] that also yields the empty array. *)
Definition read_history (ls : LocalStorage) : list json :=
  match ls_history ls with
  | Some h => h
  | None => []
  end.

(** [history.slice(history.length - MAX_HISTORY)] *)
Definition slice_from (start : nat) (h : list json) : list json := drop start h.

(** [saveAllSettingsToLocalStorage], from the assembled [data] record on. *)
Definition saveAllSettingsToLocalStorage (data : json) (ls : LocalStorage) : LocalStorage :=
  let this_settings := JSON_stringify data in
  let ls1 := mkLocalStorage (Some this_settings) (ls_history ls) in
  let history := read_history ls1 in
  let differs :=
    match last history with
    | None => true
    | Some top => negb (String.eqb (JSON_stringify top) this_settings)
    end in
  if (Nat.eqb (length history) 0 || differs)%bool then
    let history1 := (history ++ [data])%list in
    let history2 :=
      if (MAX_HISTORY <? length history1)%nat
      then slice_from (length history1 - MAX_HISTORY) history1
      else history1 in
    mkLocalStorage (Some this_settings) (Some history2)
  else ls1.

(** [updateUndoButton]: the counter text and the [disabled] flag. *)
Definition undo_steps (ls : LocalStorage) : Z :=
  Z.max 0 (Z.of_nat (length (read_history ls)) - 1)%Z.

Definition updateUndoButton (ls : LocalStorage) : Z * bool :=
  let steps := undo_steps ls in (steps, (steps =? 0)%Z).

(** [history.pop()] leaves the array without its last element. *)
Definition pop (h : list json) : list json := take (length h - 1) h.

(** [undoSettings]; the snapshot handed to the form is the second component. *)
Definition undoSettings (ls : LocalStorage) : LocalStorage * option json :=
  let history := read_history ls in
  if (length history <? 2)%nat then (ls, None)
  else
    let history1 := pop history in
    match last history1 with
    | Some prev => (mkLocalStorage (Some (JSON_stringify prev)) (Some history1), Some prev)
    | None => (ls, None)
    end.

(** ** Loading a label from the repository ([repository.js])

    [repoLoad] receives the record sent by the server, copies its [text]
    field into [fontSettingsPerLine] and writes it under [LS_KEY].  On
    [null] the property access throws and the [catch] skips the write; on
    any other non-object the assignment leaves the serialised text as it
    is. *)
Definition repoLoad_record (data : json) : option json :=
  match data with
  | JNull => None
  | JObj props =>
      let text := match obj_get "text" props with
                  | Some t => if truthy t then t else JStr "[]"
                  | None => JStr "[]"
                  end in
      Some (JObj (obj_set "fontSettingsPerLine" text props))
  | other => Some other
  end.

Definition repoLoad (data : json) (ls : LocalStorage) : LocalStorage :=
  match repoLoad_record data with
  | Some d => mkLocalStorage (Some (JSON_stringify d)) (ls_history ls)
  | None => ls
  end.

(** Successive saves of a list of records. *)
Definition save_all (ds : list json) (ls : LocalStorage) : LocalStorage :=
  fold_left (fun st d => saveAllSettingsToLocalStorage d st) ds ls.

Definition empty_storage : LocalStorage := mkLocalStorage None None.

(** The history invariant of the specification; two records are equal
    when their canonical texts are. *)
Definition adjacent_distinct (h : list json) : Prop :=
  forall i a b, h !! i = Some a -> h !! S i = Some b ->
                JSON_stringify a <> JSON_stringify b.

Definition last_is_current (ls : LocalStorage) : Prop :=
  forall top, last (read_history ls) = Some top ->
              ls_settings ls = Some (JSON_stringify top).

Definition history_invariant (ls : LocalStorage) : Prop :=
  adjacent_distinct (read_history ls) /\ last_is_current ls.

Definition snap (n : Z) : json := JObj [("a", JNum n)].

(** ** Content hash and image cache ([storage.js]) *)

Definition FNV_OFFSET_BASIS : Z := 14695981039346656037%Z.
Definition FNV_PRIME : Z := 1099511628211%Z.

(** [(1n << 64n) - 1n] *)
Definition MASK64 : Z := (Z.shiftl 1 64 - 1)%Z.

(** [string.charCodeAt(i)] for every [i]. *)
Definition char_codes (s : string) : list Z :=
  List.map (fun c => Z.of_N (N_of_ascii c)) (list_ascii_of_string s).

(** One turn of the loop: [hash ^= c; hash *= FNV_PRIME; hash &= mask]. *)
Definition fnv_step (hash c : Z) : Z :=
  let hash1 := Z.lxor hash c in
  let hash2 := (hash1 * FNV_PRIME)%Z in
  Z.land hash2 MASK64.

Definition fnv1a (s : string) : Z := fold_left fnv_step (char_codes s) FNV_OFFSET_BASIS.

(** [BigInt.prototype.toString(36)] on a non-negative value; the digits
    are produced from the last one on, and one turn more than the binary
    logarithm of the value is always enough. *)
Definition digit36 (d : Z) : ascii :=
  if (d <? 10)%Z then ascii_of_N (Z.to_N (48 + d)) else ascii_of_N (Z.to_N (87 + d)).

Fixpoint to_radix36 (fuel : nat) (n : Z) (acc : string) : string :=
  match fuel with
  | O => acc
  | S fuel' =>
      if (n =? 0)%Z then acc
      else to_radix36 fuel' (n / 36)%Z (String (digit36 (n mod 36)%Z) acc)
  end.

Definition toString36 (n : Z) : string :=
  if (n =? 0)%Z then "0" else to_radix36 (S (Z.to_nat (Z.log2 n))) n "".

Definition generateHash (s : string) : string := toString36 (fnv1a s).

(** Reading a base-36 numeral back. *)
Definition value36 (c : ascii) : Z :=
  let n := Z.of_N (N_of_ascii c) in
  if (n <? 58)%Z then (n - 48)%Z else (n - 87)%Z.

Fixpoint parse36 (acc : Z) (s : string) : Z :=
  match s with
  | EmptyString => acc
  | String c rest => parse36 (acc * 36 + value36 c)%Z rest
  end.

(** The hash with the two arithmetic steps in the order in which the
    specification words them: multiply by the prime, xor the unit in, mask. *)
Definition worded_step (hash c : Z) : Z :=
  Z.land (Z.lxor (hash * FNV_PRIME)%Z c) MASK64.

Definition worded_hash (s : string) : string :=
  toString36 (fold_left worded_step (char_codes s) FNV_OFFSET_BASIS).

(** Trial division by the odd numbers from 3 on, used for the small
    primes in the primality certificate of [FNV_PRIME]. *)
Definition trial_step (p : Z) (st : Z * bool) : Z * bool :=
  let '(d, ok) := st in ((d + 2)%Z, (ok && negb (p mod d =? 0)%Z)%bool).

Definition trial_division (p : Z) (rounds : positive) : Z * bool :=
  Pos.iter (trial_step p) (3%Z, true) rounds.

(** The object store [images] of the IndexedDB database. *)
Record ImageRecord : Type := mkImage { mime : string; b64 : string }.

(** Whether the database can be opened and the transaction runs. *)
Inductive db_status : Type := DbAvailable | DbFailing.

(** [_saveImageToDB]: [store.add] refuses a key that is present with a
    [ConstraintError], which resolves to [false]; any other failure is
    caught and resolves to [null]. *)
Definition _saveImageToDB (status : db_status) (id mime b64 : string)
    (db : gmap string ImageRecord) : gmap string ImageRecord * option bool :=
  match status with
  | DbFailing => (db, None)
  | DbAvailable =>
      match db !! id with
      | Some _ => (db, Some false)
      | None => (<[id := mkImage mime b64]> db, Some true)
      end
  end.

(** [_getImageFromDB]: [e.target.result || null]. *)
Definition _getImageFromDB (status : db_status) (id : string)
    (db : gmap string ImageRecord) : option ImageRecord :=
  match status with
  | DbFailing => None
  | DbAvailable => db !! id
  end.

(** The image branch of [saveAllSettingsToLocalStorage]: hash the content,
    write it under the hash and keep the hash as [image_ref]. *)
Definition cache_image (status : db_status) (mime b64 : string)
    (db : gmap string ImageRecord) : string * (gmap string ImageRecord * option bool) :=
  let imageHash := generateHash b64 in
  (imageHash, _saveImageToDB status imageHash mime b64 db).

(** ** Diff utilities ([storage.js]) *)

(** A leaf of a flattened record: a value that is not an object. *)
Inductive prim : Type :=
| PNull
| PBool (b : bool)
| PNum (n : Z)
| PStr (s : string).

#[global] Instance prim_eq_dec : EqDecision prim.
Proof. solve_decision. Defined.

(** [isObject(value)] together with [Object.entries(value)]: an array
    lists its items under their indices. *)
Inductive shape : Type :=
| Leaf (p : prim)
| Node (entries : object).

Definition array_entries (items : list json) : object :=
  imap (fun i v => (string_of_nat i, v)) items.

Definition inspect (v : json) : shape :=
  match v with
  | JNull => Leaf PNull
  | JBool b => Leaf (PBool b)
  | JNum n => Leaf (PNum n)
  | JStr s => Leaf (PStr s)
  | JArr items => Node (array_entries items)
  | JObj props => Node props
  end.

Definition first_char (s : string) : option ascii :=
  match s with
  | EmptyString => None
  | String c _ => Some c
  end.

Fixpoint last_char (s : string) : option ascii :=
  match s with
  | EmptyString => None
  | String c EmptyString => Some c
  | String _ rest => last_char rest
  end.

Definition char_is (c : ascii) (o : option ascii) : bool :=
  match o with
  | Some c' => Ascii.eqb c c'
  | None => false
  end.

(** [(value.startsWith('{') && value.endsWith('}')) ||
     (value.startsWith('[') && value.endsWith(']'))] *)
Definition looks_like_json (s : string) : bool :=
  (char_is "{" (first_char s) && char_is "}" (last_char s)
   || char_is "[" (first_char s) && char_is "]" (last_char s))%bool.

(** A fold that stops at the first failure. *)
Fixpoint fold_entries {A B : Type} (f : A -> B -> option B) (l : list A) (acc : B) : option B :=
  match l with
  | [] => Some acc
  | x :: rest =>
      match f x acc with
      | Some acc' => fold_entries f rest acc'
      | None => None
      end
  end.

Section Flatten.
(** [JSON.parse], a built-in of the host; [None] stands for the
    [SyntaxError] it throws. *)
Variable JSON_parse : string -> option json.

(** The [try { value = JSON.parse(value) } catch (e) { }] of [dig]. *)
Definition decode (value : json) : json :=
  match value with
  | JStr s =>
      if looks_like_json s then
        match JSON_parse s with
        | Some parsed => parsed
        | None => value
        end
      else value
  | _ => value
  end.

(** The body of the loop of [dig] for one entry; [descend] is the
    recursive call. *)
Definition visit (descend : list string -> object -> gmap string prim -> option (gmap string prim))
    (path : list string) (entry : string * json) (acc : gmap string prim)
    : option (gmap string prim) :=
  let '(key, value) := entry in
  let value := decode value in
  let path := (path ++ [key])%list in
  match inspect value with
  | Node children => descend path children acc
  | Leaf p => Some (<[String.concat "." path := p]> acc)
  end.

(** [dig]; the recursion depth is bounded by [fuel], [None] when the
    bound is reached. *)
Fixpoint dig (fuel : nat) (path : list string) (entries : object)
    (acc : gmap string prim) : option (gmap string prim) :=
  match fuel with
  | O => None
  | S fuel' => fold_entries (visit (dig fuel') path) entries acc
  end.

(** [flattenObject]; [None] as argument is [undefined]. *)
Definition flattenObject (fuel : nat) (obj : option object) : option (gmap string prim) :=
  match obj with
  | None => Some ∅
  | Some props => dig fuel [] props ∅
  end.
End Flatten.

(** An entry of [changed]: a value copied from [after], or a
    [{from, to}] pair. *)
Inductive change : Type :=
| Copied (v : prim)
| FromTo (from to : prim).

(** The three objects [added], [changed] and [removed]. *)
Record diff_state : Type := mkDiff {
  added : gmap string prim;
  changed : gmap string change;
  removed : gmap string prim
}.

(** The body of the [for (let key in after)] loop; [key] is a key of
    [after].  The values of [after] are leaves, never [undefined], so
    [after[key] === before[key]] holds exactly when [before] has the key
    with the same leaf. *)
Definition diff_step (before after : gmap string prim) (st : diff_state) (key : string)
    : diff_state :=
  match after !! key with
  | None => st
  | Some a =>
      match before !! key with
      | Some b =>
          if decide (a = b) then
            mkDiff (delete key (added st)) (delete key (changed st)) (delete key (removed st))
          else
            mkDiff (delete key (added st)) (<[key := FromTo b a]> (changed st))
                   (delete key (removed st))
      | None =>
          mkDiff (added st) (delete key (changed st)) (delete key (removed st))
      end
  end.

(** [diffFlatten]: the three copies, then the loop over the keys of
    [after] (the order in which they are visited does not matter, see
    [diffFlatten_any_order]). *)
Definition diff_over (keys : list string) (before after : gmap string prim) : diff_state :=
  fold_left (diff_step before after) keys (mkDiff after (Copied <$> after) before).

Definition diffFlatten (before after : gmap string prim) : diff_state :=
  diff_over (List.map fst (map_to_list after)) before after.

Definition compareObjects (JSON_parse : string -> option json) (fuel : nat)
    (before after : option object) : option diff_state :=
  match flattenObject JSON_parse fuel before, flattenObject JSON_parse fuel after with
  | Some b, Some a => Some (diffFlatten b a)
  | _, _ => None
  end.

(** The records without a leaf: objects and arrays, plain or serialised
    in a string, all of whose entries are again without a leaf. *)
Inductive leafless (JSON_parse : string -> option json) : json -> Prop :=
| leafless_node value children :
    inspect (decode JSON_parse value) = Node children ->
    leafless_entries JSON_parse children ->
    leafless JSON_parse value
with leafless_entries (JSON_parse : string -> option json) : object -> Prop :=
| leafless_nil : leafless_entries JSON_parse []
| leafless_cons key value rest :
    leafless JSON_parse value ->
    leafless_entries JSON_parse rest ->
    leafless_entries JSON_parse ((key, value) :: rest).

Scheme leafless_mut := Minimality for leafless Sort Prop
  with leafless_entries_mut := Minimality for leafless_entries Sort Prop.

Combined Scheme leafless_mutual from leafless_mut, leafless_entries_mut.

(** A small reader of JSON texts: literals, integers, strings with the
    two-character escapes, arrays and objects, blanks between tokens. *)
Fixpoint skip_blanks (s : string) : string :=
  match s with
  | String c rest =>
      if (Ascii.eqb c " " || Ascii.eqb c "010" || Ascii.eqb c "013" || Ascii.eqb c "009")%bool
      then skip_blanks rest else s
  | EmptyString => s
  end.

Fixpoint take_digits (s : string) (acc : string) : string * string :=
  match s with
  | String c rest =>
      if ((48 <=? N_of_ascii c) && (N_of_ascii c <=? 57))%N
      then take_digits rest (acc +:+ String c "")
      else (acc, s)
  | EmptyString => (acc, s)
  end.

Definition unescape (c : ascii) : option ascii :=
  if Ascii.eqb c "034" then Some "034"%char
  else if Ascii.eqb c "\" then Some "\"%char
  else if Ascii.eqb c "/" then Some "/"%char
  else if Ascii.eqb c "b" then Some "008"%char
  else if Ascii.eqb c "f" then Some "012"%char
  else if Ascii.eqb c "n" then Some "010"%char
  else if Ascii.eqb c "r" then Some "013"%char
  else if Ascii.eqb c "t" then Some "009"%char
  else None.

Fixpoint read_string (s : string) (acc : string) : option (string * string) :=
  match s with
  | EmptyString => None
  | String c rest =>
      if Ascii.eqb c "034" then Some (acc, rest)
      else if Ascii.eqb c "\" then
        match rest with
        | String e rest' =>
            match unescape e with
            | Some d => read_string rest' (acc +:+ String d "")
            | None => None
            end
        | EmptyString => None
        end
      else if (N_of_ascii c <? 32)%N then None
      else read_string rest (acc +:+ String c "")
  end.

Definition read_literal (word : string) (v : json) (s : string) : option (json * string) :=
  if String.prefix word s
  then Some (v, String.substring (String.length word) (String.length s - String.length word) s)
  else None.

Definition read_number (s : string) : option (json * string) :=
  let '(neg, body) :=
    match s with
    | String "-" rest => (true, rest)
    | _ => (false, s)
    end in
  let '(digits, rest) := take_digits body "" in
  match NilZero.uint_of_string digits with
  | Some d =>
      if (String.eqb digits "" || (1 <? String.length digits)%nat && String.prefix "0" digits)%bool
      then None
      else
        let n := Z.of_nat (Nat.of_uint d) in
        Some (JNum (if neg then (- n)%Z else n), rest)
  | None => None
  end.

Fixpoint read_value (fuel : nat) (s : string) : option (json * string) :=
  match fuel with
  | O => None
  | S fuel' =>
      let read_items :=
        fix read_items (n : nat) (s : string) (acc : list json) : option (json * string) :=
          match n with
          | O => None
          | S n' =>
              match read_value fuel' s with
              | Some (v, rest) =>
                  match skip_blanks rest with
                  | String "," rest' => read_items n' rest' (acc ++ [v])%list
                  | String "]" rest' => Some (JArr (acc ++ [v])%list, rest')
                  | _ => None
                  end
              | None => None
              end
          end in
      let read_props :=
        fix read_props (n : nat) (s : string) (acc : object) : option (json * string) :=
          match n with
          | O => None
          | S n' =>
              match skip_blanks s with
              | String "034" s1 =>
                  match read_string s1 "" with
                  | Some (key, s2) =>
                      match skip_blanks s2 with
                      | String ":" s3 =>
                          match read_value fuel' s3 with
                          | Some (v, rest) =>
                              match skip_blanks rest with
                              | String "," rest' => read_props n' rest' (obj_set key v acc)
                              | String "}" rest' => Some (JObj (obj_set key v acc), rest')
                              | _ => None
                              end
                          | None => None
                          end
                      | _ => None
                      end
                  | None => None
                  end
              | _ => None
              end
          end in
      match skip_blanks s with
      | String "n" _ as t => read_literal "null" JNull t
      | String "t" _ as t => read_literal "true" (JBool true) t
      | String "f" _ as t => read_literal "false" (JBool false) t
      | String "034" rest =>
          match read_string rest "" with
          | Some (str, rest') => Some (JStr str, rest')
          | None => None
          end
      | String "[" rest =>
          match skip_blanks rest with
          | String "]" rest' => Some (JArr [], rest')
          | _ => read_items (String.length rest) rest []
          end
      | String "{" rest =>
          match skip_blanks rest with
          | String "}" rest' => Some (JObj [], rest')
          | _ => read_props (String.length rest) rest []
          end
      | t => read_number t
      end
  end.

Definition parse_json (s : string) : option json :=
  match read_value (S (String.length s)) s with
  | Some (v, rest) => if String.eqb (skip_blanks rest) "" then Some v else None
  | None => None
  end.

(** The same records in the words of the specification, where a string
    counts as soon as [JSON.parse] reads an object or an array from it. *)
Definition decode_as_worded (JSON_parse : string -> option json) (value : json) : json :=
  match value with
  | JStr s =>
      match JSON_parse s with
      | Some parsed => parsed
      | None => value
      end
  | _ => value
  end.

Inductive leafless_as_worded (JSON_parse : string -> option json) : json -> Prop :=
| worded_node value children :
    inspect (decode_as_worded JSON_parse value) = Node children ->
    leafless_entries_as_worded JSON_parse children ->
    leafless_as_worded JSON_parse value
with leafless_entries_as_worded (JSON_parse : string -> option json) : object -> Prop :=
| worded_nil : leafless_entries_as_worded JSON_parse []
| worded_cons key value rest :
    leafless_as_worded JSON_parse value ->
    leafless_entries_as_worded JSON_parse rest ->
    leafless_entries_as_worded JSON_parse ((key, value) :: rest).

(** ** Per-line font settings ([font-settings.js]) *)

Definition DEFAULT_FONT : string := "Droid Serif,Regular".
Definition SHIPPING_LINE_NAMES : list string := ["Sender section"; "Recipient section"].

(** What the font controls of the form read; [None] is the [undefined]
    of a selection without a checked or selected element. *)
Record FontControls : Type := mkControls {
  ctl_font : option string;
  ctl_size : string;
  ctl_inverted : bool;
  ctl_checkbox : bool;
  ctl_align : option string;
  ctl_line_spacing : option string;
  ctl_color : option string
}.

(** [v || d] on a string that may be [undefined]. *)
Definition or_else (v : option string) (d : string) : string :=
  match v with
  | Some s => if String.eqb s "" then d else s
  | None => d
  end.

(** The object literal [currentFont]. *)
Definition currentFont (c : FontControls) : object :=
  [ ("font", JStr (or_else (ctl_font c) DEFAULT_FONT));
    ("size", JStr (ctl_size c));
    ("inverted", JBool (ctl_inverted c));
    ("checkbox", JBool (ctl_checkbox c));
    ("align", JStr (or_else (ctl_align c) "center"));
    ("line_spacing", JStr (or_else (ctl_line_spacing c) "100"));
    ("color", JStr (or_else (ctl_color c) "black")) ].

(** The values met by the comparisons and the indexing of this module:
    [null], the loop counter, and the string [lineSelect.val()] returns.
    Both functions rebuild the options of the line selector with the
    line indices as values ([attr('value', index)]), and the other
    writers ([val(0)], [val(lineIdx)]) select one of them, so that string
    is always the decimal numeral of a number: [VNumeral n] is the string
    [String(n)]. *)
Inductive jsval : Type :=
| VNull
| VNum (n : nat)
| VNumeral (n : nat).

(** [a === b]: values of different types are never strictly equal. *)
Definition strict_equals (a b : jsval) : bool :=
  match a, b with
  | VNull, VNull => true
  | VNum m, VNum n => Nat.eqb m n
  | VNumeral m, VNumeral n => String.eqb (string_of_nat m) (string_of_nat n)
  | _, _ => false
  end.

(** The options of the line selector carry the line indices as values,
    so [lineSelect.val()] is [null] or the decimal numeral of an index. *)
Definition lineSelect_val (selected : option nat) : jsval :=
  match selected with
  | None => VNull
  | Some n => VNumeral n
  end.

Definition to_property_key (v : jsval) : string :=
  match v with
  | VNull => "null"
  | VNum n => string_of_nat n
  | VNumeral n => string_of_nat n
  end.

(** A property key is an array index when it is the canonical numeral
    of a number. *)
Definition array_index (key : string) : option nat :=
  match NilZero.uint_of_string key with
  | Some d =>
      let n := Nat.of_uint d in
      if String.eqb (string_of_nat n) key then Some n else None
  | None => None
  end.

(** [arr[v]].  The keys met here are ["null"] and the numerals of
    numbers: an array has no property ["null"], own or inherited, and a
    numeral reads the item at that index, [undefined] beyond the end. *)
Definition array_get (arr : list object) (v : jsval) : option object :=
  match array_index (to_property_key v) with
  | Some i => arr !! i
  | None => None
  end.

(** [parseInt(v)] on the values of the line selector; [None] is [NaN]. *)
Definition parseInt (v : jsval) : option nat :=
  match v with
  | VNull => None
  | VNum n => Some n
  | VNumeral n =>
      let s := string_of_nat n in
      if String.eqb s "" then None
      else match NilZero.uint_of_string s with
           | Some d => Some (Nat.of_uint d)
           | None => None
           end
  end.

(** [Object.assign({}, src)]; an [undefined] source gives [{}]. *)
Definition assign_copy (src : option object) : object :=
  match src with
  | Some o => o
  | None => []
  end.

(** [text.split(/\r?\n/)] *)
Fixpoint split_lines_from (s : string) (line : string) : list string :=
  match s with
  | EmptyString => [line]
  | String c rest =>
      if Ascii.eqb c "010" then line :: split_lines_from rest ""
      else if Ascii.eqb c "013" then
        match rest with
        | String "010" rest' => line :: split_lines_from rest' ""
        | _ => split_lines_from rest (line +:+ String c "")
        end
      else split_lines_from rest (line +:+ String c "")
  end.

Definition split_lines (s : string) : list string := split_lines_from s "".

(** [arr[i]['text'] = text]; [None] is the [TypeError] on a missing slot. *)
Definition set_text (entry : nat * string) (arr : list object) : option (list object) :=
  let '(i, text) := entry in
  match arr !! i with
  | Some slot => Some (<[i := obj_set "text" (JStr text) slot]> arr)
  | None => None
  end.

(** [for (i = 0; i < texts.length; i++) arr[i]['text'] = texts[i]] *)
Definition set_texts (texts : list string) (arr : list object) : option (list object) :=
  fold_entries set_text (imap pair texts) arr.

(** The synced branch: a fresh array with one copy of [currentFont] per
    line. *)
Definition synced_lines (cf : object) (lines : list string) : list object :=
  List.map (fun line => obj_set "text" (JStr line) (assign_copy (Some cf))) lines.

(** One turn of the growing loop; [i] is [arr.length] there. *)
Definition push_line (cf : object) (selectedLine : jsval) (arr : list object) : list object :=
  let i := length arr in
  if (strict_equals (VNum i) selectedLine || strict_equals selectedLine VNull)%bool
  then (arr ++ [assign_copy (Some cf)])%list
  else (arr ++ [assign_copy (match i with O => None | S j => arr !! j end)])%list.

Definition grow (cf : object) (selectedLine : jsval) (n : nat) (arr : list object)
    : list object :=
  Nat.iter (n - length arr) (push_line cf selectedLine) arr.

(** [if (arr[selectedLine]) arr[selectedLine] = Object.assign({}, currentFont)] *)
Definition replace_selected (cf : object) (selectedLine : jsval) (arr : list object)
    : list object :=
  match array_get arr selectedLine, array_index (to_property_key selectedLine) with
  | Some _, Some i => <[i := assign_copy (Some cf)]> arr
  | _, _ => arr
  end.

(** The independent branch: grow, [pop] down to the number of lines,
    replace the selected slot, set the texts. *)
Definition independent_lines (cf : object) (selectedLine : jsval) (lines : list string)
    (arr : list object) : option (list object) :=
  let arr1 := grow cf selectedLine (length lines) arr in
  let arr2 := take (length lines) arr1 in
  let arr3 := replace_selected cf selectedLine arr2 in
  set_texts lines arr3.

(** One turn of the backfilling loop of the shipping layout. *)
Definition backfill_step (cf : object) (arr : list object) : list object :=
  let prev := match last arr with
              | Some slot => slot
              | None => assign_copy (Some cf)
              end in
  (arr ++ [assign_copy (Some prev)])%list.

(** [_setShippingFontSettings] *)
Definition _setShippingFontSettings (cf : object) (selected : jsval) (isSynced : bool)
    (arr : list object) : option (list object) :=
  let count := length SHIPPING_LINE_NAMES in
  let selectedLine := match parseInt selected with
                      | Some n => n
                      | None => 0%nat
                      end in
  let selectedLine := if (count <=? selectedLine)%nat then 0%nat else selectedLine in
  let arr1 := Nat.iter (count - length arr) (backfill_step cf) arr in
  let arr2 := take count arr1 in
  let arr3 :=
    if isSynced
    then fold_left (fun a idx => <[idx := assign_copy (Some cf)]> a) (seq 0 count) arr2
    else <[selectedLine := assign_copy (Some cf)]> arr2 in
  set_texts SHIPPING_LINE_NAMES arr3.

(** [setFontSettingsPerLine]: the new value of [fontSettingsPerLine]. *)
Definition setFontSettingsPerLine (controls : FontControls) (printType : option string)
    (label_text : option string) (selected : jsval) (isSynced : bool)
    (arr : list object) : option (list object) :=
  let cf := currentFont controls in
  if decide (printType = Some "shipping") then
    _setShippingFontSettings cf selected isSynced arr
  else
    let text := or_else label_text "" in
    let lines := split_lines text in
    let lines := if Nat.eqb (length lines) 0 then [""] else lines in
    if isSynced then Some (synced_lines cf lines)
    else independent_lines cf selected lines arr.

(** [slot] with its [text] field set to [text]. *)
Definition with_text (text : string) (slot : object) : object :=
  obj_set "text" (JStr text) slot.

Definition newline : string := String "010" "".

(** A slot without its [text] field. *)
Definition style_of (slot : object) : object :=
  List.filter (fun kv => negb (String.eqb (fst kv) "text")) slot.

(** The growth rule of the independent mode in the words of the
    specification: a new slot copies the style of the slot before it,
    unless it is the selected line or the first slot, which take the
    current style. *)
Definition growth_as_worded (cf : object) (selected : option nat)
    (prior result : list object) : Prop :=
  forall i slot, (length prior <= i)%nat -> result !! i = Some slot ->
    if decide (selected = Some i \/ i = 0%nat)
    then style_of slot = cf
    else exists before, result !! (i - 1)%nat = Some before /\ style_of slot = style_of before.

Definition sample_controls : FontControls :=
  mkControls (Some "X") "10" false false (Some "left") None None.

Definition sample_slot (font : string) (text : string) : object :=
  obj_set "text" (JStr text)
    (currentFont (mkControls (Some font) "20" true false (Some "right") (Some "150") (Some "red"))).

(** The entries of the three objects at one key. *)
Definition entries_at (st : diff_state) (key : string)
    : option prim * option change * option prim :=
  (added st !! key, changed st !! key, removed st !! key).

(** The classification of a key in the words of the specification:
    only in [after], added; in both with different values, changed from
    the old to the new value; only in [before], removed; otherwise in
    none of the three. *)
Definition classify (before after : gmap string prim) (key : string)
    : option prim * option change * option prim :=
  match after !! key, before !! key with
  | Some a, None => (Some a, None, None)
  | Some a, Some b =>
      if decide (a = b) then (None, None, None) else (None, Some (FromTo b a), None)
  | None, Some b => (None, None, Some b)
  | None, None => (None, None, None)
  end.

(** ** Sequences of storage operations *)

(** The three operations that write [localStorage]: a save of the form,
    an undo, and a repository load. *)
Inductive storage_op : Type :=
| OpSave (data : json)
| OpUndo
| OpLoad (data : json).

Definition apply_op (ls : LocalStorage) (op : storage_op) : LocalStorage :=
  match op with
  | OpSave data => saveAllSettingsToLocalStorage data ls
  | OpUndo => fst (undoSettings ls)
  | OpLoad data => repoLoad data ls
  end.

Definition run_ops (ops : list storage_op) (ls : LocalStorage) : LocalStorage :=
  fold_left apply_op ops ls.

(** [n] clicks on the undo button. *)
Definition undo_times (n : nat) (ls : LocalStorage) : LocalStorage :=
  Nat.iter n (fun st => fst (undoSettings st)) ls.
(** ** Data URLs and the image of the drop zone ([storage.js]) *)

(** [s.indexOf(c)] for a one-character [c]; [None] stands for [-1]. *)
Fixpoint indexOf (c : ascii) (s : string) : option nat :=
  match s with
  | EmptyString => None
  | String x rest => if Ascii.eqb x c then Some 0%nat else option_map S (indexOf c rest)
  end.

(** [s.substring(start, stop)]: both indices are clamped to the length
    and exchanged when they come out of order. *)
Definition js_substring (start stop : nat) (s : string) : string :=
  let len := String.length s in
  let a := Nat.min start len in
  let b := Nat.min stop len in
  String.substring (Nat.min a b) (Nat.max a b - Nat.min a b) s.

(** [s.substring(start)] *)
Definition js_substring_from (start : nat) (s : string) : string :=
  js_substring start (String.length s) s.

(** [s.split(c)[0]]: what precedes the first [c], all of [s] without one. *)
Fixpoint before_first (c : ascii) (s : string) : string :=
  match s with
  | EmptyString => EmptyString
  | String x rest => if Ascii.eqb x c then EmptyString else String x (before_first c rest)
  end.

(** The object [{ mime, b64 }] that [parseDataUrl] returns; [None] is [null]. *)
Record DataUrlParts : Type := mkParts {
  parts_mime : option string;
  parts_b64 : option string
}.

Definition parseDataUrl (dataUrl : string) : DataUrlParts :=
  match indexOf "," dataUrl with
  | None => mkParts None None
  | Some comma =>
      let header := js_substring 5 comma dataUrl in
      let mime := before_first ";" header in
      let b64 := js_substring_from (comma + 1) dataUrl in
      mkParts (Some mime) (Some b64)
  end.

(** A file of the drop zone: its [name] and its [dataURL], either of
    which may be [undefined]. *)
Record DropFile : Type := mkFile {
  file_name : option string;
  file_dataURL : option string
}.

(** The image branch of [saveAllSettingsToLocalStorage] on the files of
    the drop zone (no file when there is no drop zone).  A file without a
    [dataURL] makes [parseDataUrl] throw, which the [catch] swallows; an
    empty or absent [b64] is falsy.  The write to the database is taken
    at its completion. *)
Definition save_image (status : db_status) (files : list DropFile) (data : object)
    (db : gmap string ImageRecord) : object * gmap string ImageRecord :=
  match files with
  | [] => (data, db)
  | f :: _ =>
      match file_dataURL f with
      | None => (data, db)
      | Some dataUrl =>
          let parsed := parseDataUrl dataUrl in
          match parts_b64 parsed, parts_mime parsed with
          | Some b64, Some mime =>
              if String.eqb b64 "" then (data, db)
              else
                let '(imageHash, (db1, _)) := cache_image status mime b64 db in
                let data1 := obj_set "image_ref" (JStr imageHash) data in
                let data2 := obj_set "image_mime" (JStr mime) data1 in
                let data3 := obj_set "image_name" (JStr (or_else (file_name f) "image")) data2 in
                (data3, db1)
          | _, _ => (data, db)
          end
      end
  end.

(** What the image branch of [restoreAllSettingsFromLocalStorage] hands
    to the drop zone: the data URL that is fetched, and the name and the
    type given to the [File] built from it. *)
Record RestoredFile : Type := mkRestored {
  restored_dataUrl : string;
  restored_name : json;
  restored_type : string
}.

(** [x || d] on a property that may be absent. *)
Definition prop_or (v : option json) (d : json) : json :=
  match v with
  | Some x => if truthy x then x else d
  | None => d
  end.

(** The store holds string keys only, so a reference that is not a
    string finds no record (or is refused as a key, which resolves to
    [null] as well). *)
Definition restore_image (status : db_status) (data : object)
    (db : gmap string ImageRecord) : option RestoredFile :=
  match obj_get "image_ref" data with
  | Some (JStr ref) =>
      if String.eqb ref "" then None
      else
        match _getImageFromDB status ref db with
        | Some record =>
            if String.eqb (b64 record) "" then None
            else
              let type := or_else (Some (mime record)) "image/png" in
              let dataUrl := "data:" +:+ type +:+ ";base64," +:+ b64 record in
              Some (mkRestored dataUrl (prop_or (obj_get "image_name" data) (JStr "image")) type)
        | None => None
        end
  | _ => None
  end.

(** The characters of a base-36 numeral: [0-9] and [a-z]. *)
Definition is_digit36 (c : ascii) : bool :=
  let n := N_of_ascii c in
  ((48 <=? n)%N && (n <=? 57)%N) || ((97 <=? n)%N && (n <=? 122)%N).

Fixpoint string_forallb (p : ascii -> bool) (s : string) : bool :=
  match s with
  | EmptyString => true
  | String c rest => p c && string_forallb p rest
  end.
(** ** The form: collecting and restoring the controls ([storage.js]) *)

(** What the two loops over [$('input, select, textarea')] read of a
    control: [id], [name], [type], whether it is checked, whether its
    parent carries the class [active], and [$(this).val()]. *)
Record FormElement : Type := mkElement {
  el_id : string;
  el_name : string;
  el_type : string;
  el_checked : bool;
  el_parent_active : bool;
  el_val : json
}.

(** [this.type === 'radio' && this.name.length > 0 ? this.name : this.id] *)
Definition element_key (e : FormElement) : string :=
  if (String.eqb (el_type e) "radio" && (0 <? String.length (el_name e))%nat)%bool
  then el_name e else el_id e.

(** One turn of the loop of [saveAllSettingsToLocalStorage]. *)
Definition collect_element (data : object) (e : FormElement) : object :=
  if String.eqb (el_id e) "lineSelect" then data
  else
    let key := element_key e in
    if (String.length key =? 0)%nat then data
    else if String.eqb (el_type e) "checkbox" then obj_set key (JBool (el_checked e)) data
    else if String.eqb (el_type e) "radio" then
      if (el_checked e || el_parent_active e)%bool then obj_set key (el_val e) data
      else data
    else obj_set key (el_val e) data.

Definition collect_form (elements : list FormElement) : object :=
  fold_left collect_element elements [].

(** [if (window.fontSettingsPerLine) data['fontSettingsPerLine'] = ...];
    an array is truthy even when empty. *)
Definition with_font_settings (fontSettingsPerLine : option (list object)) (data : object)
    : object :=
  match fontSettingsPerLine with
  | Some arr => obj_set "fontSettingsPerLine" (JStr (JSON_stringify (JArr (List.map JObj arr)))) data
  | None => data
  end.

(** The whole of [saveAllSettingsToLocalStorage]: the record is put
    together from the controls, the per-line styles and the image, then
    written with the history. *)
Definition assemble_data (status : db_status) (elements : list FormElement)
    (fontSettingsPerLine : option (list object)) (files : list DropFile)
    (db : gmap string ImageRecord) : object * gmap string ImageRecord :=
  save_image status files (with_font_settings fontSettingsPerLine (collect_form elements)) db.

Definition save_form (status : db_status) (elements : list FormElement)
    (fontSettingsPerLine : option (list object)) (files : list DropFile)
    (db : gmap string ImageRecord) (ls : LocalStorage)
    : LocalStorage * gmap string ImageRecord :=
  let '(data, db1) := assemble_data status elements fontSettingsPerLine files db in
  (saveAllSettingsToLocalStorage (JObj data) ls, db1).


Section Restore.

(** The comparison [==] between the value of a radio button and a stored
    value. *)
Variable loose_equals : json -> json -> bool.


End Restore.

(** Whether the save loop assigns a property for a control, and which
    value. *)
Definition writes (e : FormElement) : bool :=
  negb (String.eqb (el_id e) "lineSelect")
  && negb (String.length (element_key e) =? 0)%nat
  && (negb (String.eqb (el_type e) "radio") || el_checked e || el_parent_active e).

Definition written_value (e : FormElement) : json :=
  if String.eqb (el_type e) "checkbox" then JBool (el_checked e) else el_val e.

(** ** Reading a diff and a flattened record *)

(** A change read backwards. *)
Definition reverse_change (c : change) : change :=
  match c with
  | Copied v => Copied v
  | FromTo from to => FromTo to from
  end.

(** The keys of a flattened record moved under the field [key]:
    [path.join('.')] with [key] pushed first. *)
Definition under (key : string) (flat : gmap string prim) : gmap string prim :=
  kmap (fun name => key +:+ "." +:+ name) flat.
(** ** The caret and the line selector ([font-settings.js]) *)

(** The loop of the [click keyup] handler of the text area: the index of
    the first line whose end lies beyond the caret, [0] when the loop runs
    out.  An empty line is falsy and counts for no character. *)
Fixpoint caret_scan (caret : nat) (lines : list string) (i charCount : nat) : nat :=
  match lines with
  | [] => 0%nat
  | line :: rest =>
      let nextCount :=
        (charCount + (if String.eqb line "" then 0 else String.length line) + 1)%nat in
      if (caret <? nextCount)%nat then i
      else caret_scan caret rest (S i) nextCount
  end.

(** The value handed to [$('#lineSelect').val(...)]. *)
Definition caret_line (value : string) (caret : nat) : nat :=
  caret_scan caret (split_lines value) 0 0.

Definition carriage_return : ascii := "013"%char.
Definition line_feed : ascii := "010"%char.
(** ** Label generation ([label.js]) *)

(** [printType === name] on the value of the checked radio button, which
    is [undefined] when none is checked. *)
Definition is_type (printType : option string) (name : string) : bool :=
  match printType with
  | Some t => String.eqb t name
  | None => false
  end.

(** The object [sectionRules] of [updateAccordionAvailability]: for each
    section, whether it is disabled. *)
Definition sectionRules (printType : option string) : object :=
  [ ("accordionFontSettings", JBool (is_type printType "qrcode" || is_type printType "image"));
    ("accordionCodeSettings", JBool (is_type printType "text" || is_type printType "image"));
    ("accordionImageSettings", JBool (negb (is_type printType "image"))) ].

(** The lookup [{...}[printType]] that gives [primarySection]. *)
Definition primarySection (printType : option string) : option json :=
  obj_get (match printType with Some t => t | None => "undefined" end)
    [ ("text", JStr "accordionFontSettings");
      ("qrcode", JStr "accordionCodeSettings");
      ("qrcode_text", JStr "accordionFontSettings");
      ("image", JStr "accordionImageSettings");
      ("shipping", JStr "accordionFontSettings") ].








(** ** Printers ([printer.js], [label.js], [repository.js]) *)

(** An entry of [data.printers]; a missing field is [undefined]. *)
Record Printer : Type := mkPrinter {
  printer_path : option string;
  printer_model : option string
}.

(** [p.model && p.model !== 'Unknown'] *)
Definition known_model (p : Printer) : option string :=
  match printer_model p with
  | Some m => if (String.eqb m "" || String.eqb m "Unknown")%bool then None else Some m
  | None => None
  end.

(** [a === b] on two paths that may be [undefined]. *)
Definition same_path (a b : option string) : bool :=
  match a, b with
  | Some x, Some y => String.eqb x y
  | None, None => true
  | _, _ => false
  end.

(** [printers.find(p => p.path === path)] *)
Definition find_printer (path : option string) (printers : list Printer) : option Printer :=
  List.find (fun p => same_path (printer_path p) path) printers.

(** The closure [modelFromPrinter] of [formData], which is also
    [modelVal] of [repoPrint]: [select_value] is the value of the printer
    selector ([None] without the element), [available_printers] the
    list kept on [window], [printer_status] the global status ([None]
    when it is [null]). *)
Definition modelFromPrinter (select_value : option string)
    (available_printers : option (list Printer)) (printer_status : option Printer)
    : option string :=
  let from_list :=
    match select_value, available_printers with
    | Some v, Some printers =>
        if String.eqb v "" then None
        else match find_printer (Some v) printers with
             | Some p => known_model p
             | None => None
             end
    | _, _ => None
    end in
  match from_list with
  | Some m => Some m
  | None =>
      match printer_status with
      | Some status => known_model status
      | None => None
      end
  end.

(** [opt.value = p.path || ''] *)
Definition option_value (p : Printer) : string := or_else (printer_path p) "".

(** [select.value = v] followed by a read of [select.value]: the first
    option with that value is selected, and without one the selector has
    no selection and reads as the empty string. *)
Definition select_assign (options : list string) (v : string) : string :=
  if existsb (String.eqb v) options then v else "".

(** The value assigned from a path that may be [undefined]. *)
Definition path_text (path : option string) : string :=
  match path with
  | Some q => q
  | None => "undefined"
  end.

(** [x || y] on a string that may be [undefined], with a fallback that
    may be [undefined] too. *)
Definition or_path (x y : option string) : option string :=
  match x with
  | Some s => if String.eqb s "" then y else Some s
  | None => y
  end.

(** The selector after the list of printers came in ([getPrinterStatus]
    and [rescanPrinters] alike): [cur] is its value before, [selected]
    is [data.selected]. *)
Definition refresh_select (cur : string) (selected : option string)
    (printers : list Printer) : string :=
  let options := List.map option_value printers in
  if (negb (String.eqb cur "") && existsb (String.eqb cur) options)%bool then
    select_assign options cur
  else
    match or_path selected None with
    | Some s => select_assign options s
    | None =>
        match printers with
        | first :: _ => select_assign options (path_text (printer_path first))
        | [] => ""
        end
    end.

(** [chosenPath] and the printer that becomes [printer_status];
    [select_value] is [None] without the selector element, and the empty
    object stands for [{}]. *)
Definition chosen_path (select_value selected : option string) (printers : list Printer)
    : option string :=
  or_path select_value
    (or_path selected
       (match printers with
        | first :: _ => printer_path first
        | [] => None
        end)).

Definition choose_printer (select_value selected : option string) (printers : list Printer)
    : Printer :=
  match find_printer (chosen_path select_value selected printers) printers with
  | Some p => p
  | None =>
      match printers with
      | first :: _ => first
      | [] => mkPrinter None None
      end
  end.

(** [getPrinterStatus], and [rescanPrinters] alike, on an answer that
    holds a list of printers: the new value of the selector, when there
    is one, and the new [printer_status]. *)
Definition getPrinterStatus (cur : option string) (selected : option string)
    (printers : list Printer) : option string * Printer :=
  let value := option_map (fun c => refresh_select c selected printers) cur in
  (value, choose_printer value selected printers).
(** ** Saving to and loading from the repository ([repository.js]) *)

(** [String(v)], as the operator [+] applies it to an operand next to a
    string. *)
Fixpoint to_js_string (v : json) : string :=
  match v with
  | JNull => "null"
  | JBool true => "true"
  | JBool false => "false"
  | JNum n => string_of_Z n
  | JStr s => s
  | JArr items =>
      String.concat "," (List.map (fun item => match item with
                                               | JNull => ""
                                               | _ => to_js_string item
                                               end) items)
  | JObj _ => "[object Object]"
  end.

(** [target[k] = v] outside of strict mode: an object takes the
    property, [null] throws ([None]), and on any other value (a
    primitive, or an array, whose added property [JSON.stringify] leaves
    out) the serialised text stays as it is. *)
Definition set_property (k : string) (v : json) (target : json) : option json :=
  match target with
  | JObj props => Some (JObj (obj_set k v props))
  | JNull => None
  | other => Some other
  end.

(** The same assignment under a [try] whose [catch] goes on with the
    target as it is. *)
Definition try_set_property (k : string) (v : json) (target : json) : json :=
  match set_property k v target with
  | Some target' => target'
  | None => target
  end.

Section Repository.
Variable JSON_parse : string -> option json.

(** [payload = JSON.parse(localStorage.getItem(LS_KEY) || '{}')], the
    empty object when that throws, then [payload['name'] = name]. *)
Definition repo_payload (name : string) (ls : LocalStorage) : option json :=
  let text := or_else (ls_settings ls) "{}" in
  let payload := match JSON_parse text with
                 | Some v => v
                 | None => JObj []
                 end in
  set_property "name" (JStr name) payload.

(** The [onload] handler of the file reader; [dataUrl] is its result. *)
Definition attach_image (payload : json) (f : DropFile) (dataUrl : string) : json :=
  let parsed := parseDataUrl dataUrl in
  match parts_b64 parsed, parts_mime parsed with
  | Some b64, Some mime =>
      if String.eqb b64 "" then payload
      else
        let payload1 := try_set_property "image_data" (JStr b64) payload in
        let payload2 := try_set_property "image_mime" (JStr mime) payload1 in
        try_set_property "image_name" (JStr (or_else (file_name f) "image")) payload2
  | _, _ => payload
  end.

(** [repoSaveCurrent]: the record sent to the server, [None] when
    nothing is sent.  [ls] is the storage as the save at the beginning
    left it, [reader_result] what the file reader delivers ([None] when
    it fails). *)
Definition repoSaveCurrent (name : string) (ls : LocalStorage) (files : list DropFile)
    (reader_result : option string) : option json :=
  if String.eqb name "" then None
  else
    match repo_payload name ls with
    | None => None
    | Some payload =>
        match files, reader_result with
        | f :: _, Some dataUrl => Some (attach_image payload f dataUrl)
        | _, _ => Some payload
        end
    end.

End Repository.

(** The image branch of [repoLoad] on the record the server sent: what
    is fetched and handed to the drop zone.  A property read on [null]
    throws, which the [catch] swallows; on another value that is no
    object it gives [undefined]. *)
Definition repoLoad_image (data : json) : option RestoredFile :=
  match data with
  | JObj props =>
      match obj_get "image_data" props with
      | Some img_b64 =>
          if truthy img_b64 then
            let img_mime := prop_or (obj_get "image_mime" props) (JStr "image/png") in
            let img_name := prop_or (obj_get "image_name" props)
                              (prop_or (obj_get "image" props) (JStr "image")) in
            Some (mkRestored
                    ("data:" +:+ to_js_string img_mime +:+ ";base64," +:+ to_js_string img_b64)
                    img_name (to_js_string img_mime))
          else None
      | None => None
      end
  | _ => None
  end.
(** The size of a JSON value: one for each node, and the length of each
    string. *)
Fixpoint weight (v : json) : nat :=
  match v with
  | JStr s => S (String.length s)
  | JArr items => S (list_sum (List.map weight items))
  | JObj props => S (list_sum (List.map (fun kv => weight (snd kv)) props))
  | _ => 1%nat
  end.

Definition weight_entries (entries : object) : nat :=
  list_sum (List.map (fun kv => weight (snd kv)) entries).

(** A parser that only reads the two empty containers. *)
Definition parse_empty (s : string) : option json :=
  if String.eqb s "[]" then Some (JArr [])
  else if String.eqb s "{}" then Some (JObj [])
  else None.
(** ** The change handler of the form ([main.js]) *)

(** What the handler reads and writes besides the form: the per-line
    styles, the storage and the image cache. *)
Record AppState : Type := mkApp {
  app_fonts : list object;
  app_storage : LocalStorage;
  app_images : gmap string ImageRecord
}.

(** What the handler reads of the form. *)
Record FormReading : Type := mkReading {
  read_controls : FontControls;
  read_printType : option string;
  read_label_text : option string;
  read_selected : jsval;
  read_isSynced : bool;
  read_elements : list FormElement;
  read_files : list DropFile
}.

(** The handler that [init2] binds to [change] and [input] of every
    control but the line selector:
    [setFontSettingsPerLine(); saveAllSettingsToLocalStorage();].
    [None] when the first call throws, which leaves out the second. *)
Definition on_change (status : db_status) (form : FormReading) (st : AppState)
    : option AppState :=
  match setFontSettingsPerLine (read_controls form) (read_printType form)
          (read_label_text form) (read_selected form) (read_isSynced form) (app_fonts st) with
  | None => None
  | Some fonts =>
      let '(ls, db) := save_form status (read_elements form) (Some fonts) (read_files form)
                         (app_images st) (app_storage st) in
      Some (mkApp fonts ls db)
  end.

(* ===================================================================== *)
(** * Part II: properties *)
(* ===================================================================== *)

(** ** Undo history *)

Lemma read_history_mk s h : read_history (mkLocalStorage s (Some h)) = h.
Proof. reflexivity. Qed.

(** What a save does to the history: the record is appended unless its
    text is the text of the last entry, and the oldest entries leave once
    there are more than [MAX_HISTORY]. *)
Lemma save_history data ls :
  read_history (saveAllSettingsToLocalStorage data ls) =
    match last (read_history ls) with
    | Some top =>
        if String.eqb (JSON_stringify top) (JSON_stringify data)
        then read_history ls
        else drop (length (read_history ls ++ [data])%list - MAX_HISTORY)
                  (read_history ls ++ [data])%list
    | None => [data]
    end.
Proof.
  unfold saveAllSettingsToLocalStorage.
  change (read_history (mkLocalStorage (Some (JSON_stringify data)) (ls_history ls)))
    with (read_history ls).
  destruct (last (read_history ls)) as [top|] eqn:Hlast.
  - destruct (read_history ls) as [|x h] eqn:Hh; [discriminate|].
    cbn [length Nat.eqb orb].
    destruct (String.eqb (JSON_stringify top) (JSON_stringify data)); cbn [negb].
    + unfold read_history at 1. cbn [ls_history]. exact Hh.
    + rewrite read_history_mk. unfold slice_from.
      destruct (Nat.ltb_spec MAX_HISTORY (length ((x :: h) ++ [data])%list)) as [Hlt|Hge].
      * reflexivity.
      * replace (length ((x :: h) ++ [data])%list - MAX_HISTORY)%nat with 0%nat by lia.
        reflexivity.
  - apply last_None in Hlast. rewrite Hlast. reflexivity.
Qed.

Lemma save_settings data ls :
  ls_settings (saveAllSettingsToLocalStorage data ls) = Some (JSON_stringify data).
Proof.
  unfold saveAllSettingsToLocalStorage.
  match goal with |- context [if ?c then _ else _] => destruct c end; reflexivity.
Qed.

Lemma save_all_snoc ds d ls :
  save_all (ds ++ [d])%list ls = saveAllSettingsToLocalStorage d (save_all ds ls).
Proof. unfold save_all. rewrite fold_left_app. reflexivity. Qed.

Lemma last_drop_snoc (h : list json) (d : json) n :
  (n <= length h)%nat -> last (drop n (h ++ [d])%list) = Some d.
Proof.
  intros Hn. rewrite drop_app_le by exact Hn. apply last_snoc.
Qed.

(** After saving records with pairwise distinct texts from an empty
    history, the history holds the last [MAX_HISTORY] of them. *)
Lemma save_all_distinct_history ds ls :
  read_history ls = [] ->
  NoDup (List.map JSON_stringify ds) ->
  read_history (save_all ds ls) = drop (length ds - MAX_HISTORY) ds.
Proof.
  intros Hempty. induction ds as [|d ds IH] using rev_ind; intros Hnd.
  - exact Hempty.
  - rewrite save_all_snoc, save_history.
    rewrite map_app in Hnd. apply NoDup_app in Hnd as (Hnd1 & Hfresh & _).
    rewrite IH by exact Hnd1.
    destruct (last (drop (length ds - MAX_HISTORY) ds)) as [top|] eqn:Hlast.
    + assert (Hin : top ∈ ds).
      { apply last_Some_elem_of in Hlast.
        revert Hlast. apply subseteq_drop. }
      destruct (String.eqb_spec (JSON_stringify top) (JSON_stringify d)) as [Heq|Hne].
      * exfalso. apply (Hfresh (JSON_stringify top)).
        -- apply list_elem_of_fmap. exists top. split; [reflexivity|exact Hin].
        -- rewrite Heq. cbn. apply list_elem_of_singleton. reflexivity.
      * rewrite !length_app, length_drop. cbn [length]. unfold MAX_HISTORY.
        rewrite drop_app_le by (rewrite length_drop; lia).
        rewrite drop_drop.
        rewrite drop_app_le by lia.
        f_equal. f_equal. lia.
    + apply last_None in Hlast.
      assert (Hds : ds = []).
      { destruct ds as [|x ds']; [reflexivity|].
        apply (f_equal length) in Hlast. rewrite length_drop in Hlast.
        unfold MAX_HISTORY in Hlast. cbn [length] in Hlast.
        exfalso. cbn in Hlast. lia. }
      subst ds. reflexivity.
Qed.

(** C1, as the claim words it, fails: after the first save from an
    empty history no undo step is available, although [min 1 39 = 1]. *)
Lemma undo_steps_one_save_differs :
  read_history empty_storage = [] /\
  NoDup (List.map JSON_stringify [snap 1]) /\
  fst (updateUndoButton (save_all [snap 1] empty_storage))
    <> Z.min (Z.of_nat (length [snap 1])) 39.
Proof.
  split; [reflexivity|]. split.
  - apply NoDup_singleton.
  - vm_compute. discriminate.
Qed.

(** C1 (amended): after [k >= 1] saves of records with pairwise distinct
    canonical texts, starting from an empty history, the undo counter
    shows [min (k - 1) 39], one less than the [min k 40] entries kept. *)
Theorem undo_steps_after_distinct_saves (ds : list json) (ls : LocalStorage) :
  read_history ls = [] ->
  NoDup (List.map JSON_stringify ds) ->
  (1 <= length ds)%nat ->
  length (read_history (save_all ds ls)) = Nat.min (length ds) MAX_HISTORY /\
  fst (updateUndoButton (save_all ds ls)) = Z.min (Z.of_nat (length ds) - 1) 39.
Proof.
  intros Hempty Hnd Hk.
  pose proof (save_all_distinct_history ds ls Hempty Hnd) as Hh.
  assert (Hlen : length (read_history (save_all ds ls)) = Nat.min (length ds) MAX_HISTORY).
  { rewrite Hh, length_drop. unfold MAX_HISTORY. lia. }
  split; [exact Hlen|].
  unfold updateUndoButton, undo_steps. cbn [fst]. rewrite Hlen.
  unfold MAX_HISTORY. lia.
Qed.

Lemma undo_steps_after_distinct_saves_witness :
  fst (updateUndoButton (save_all [snap 1; snap 2; snap 3] empty_storage)) = 2%Z.
Proof.
  refine (proj2 (undo_steps_after_distinct_saves [snap 1; snap 2; snap 3] empty_storage
                   eq_refl _ _)).
  - apply (bool_decide_unpack _). vm_compute. reflexivity.
  - cbn. lia.
Defined.

(** *** The history invariant *)

Lemma adjacent_distinct_snoc h top d :
  adjacent_distinct h -> last h = Some top ->
  JSON_stringify top <> JSON_stringify d ->
  adjacent_distinct (h ++ [d])%list.
Proof.
  intros Hadj Hlast Hne i a b Ha Hb.
  destruct (decide (S i < length h)%nat) as [Hlt|Hge].
  - rewrite lookup_app_l in Ha by lia. rewrite lookup_app_l in Hb by lia.
    exact (Hadj i a b Ha Hb).
  - assert (Hi : S i = length h).
    { apply lookup_lt_Some in Hb. rewrite length_app in Hb. cbn in Hb. lia. }
    rewrite lookup_app_l in Ha by lia.
    rewrite lookup_app_r in Hb by lia.
    replace (S i - length h)%nat with 0%nat in Hb by lia. cbn in Hb.
    rewrite last_lookup in Hlast. rewrite <- Hi in Hlast. cbn in Hlast.
    congruence.
Qed.

Lemma adjacent_distinct_drop n h : adjacent_distinct h -> adjacent_distinct (drop n h).
Proof.
  intros Hadj i a b Ha Hb. rewrite lookup_drop in Ha, Hb.
  replace (n + S i)%nat with (S (n + i)) in Hb by lia.
  exact (Hadj _ a b Ha Hb).
Qed.

Lemma adjacent_distinct_take n h : adjacent_distinct h -> adjacent_distinct (take n h).
Proof.
  intros Hadj i a b Ha Hb.
  apply lookup_take_Some in Ha as [Ha _]. apply lookup_take_Some in Hb as [Hb _].
  exact (Hadj i a b Ha Hb).
Qed.

Lemma save_establishes_invariant data ls :
  adjacent_distinct (read_history ls) ->
  history_invariant (saveAllSettingsToLocalStorage data ls).
Proof.
  intros Hadj. unfold history_invariant, last_is_current.
  rewrite save_settings, save_history.
  destruct (last (read_history ls)) as [top|] eqn:Hlast.
  - destruct (String.eqb_spec (JSON_stringify top) (JSON_stringify data)) as [Heq|Hne].
    + split; [exact Hadj|]. intros top' Htop'. congruence.
    + split.
      * apply adjacent_distinct_drop. eapply adjacent_distinct_snoc; eassumption.
      * intros top' Htop'. rewrite last_drop_snoc in Htop'.
        -- congruence.
        -- rewrite length_app. cbn [length]. unfold MAX_HISTORY. lia.
  - split.
    + intros i a b _ Hb. destruct i; discriminate.
    + intros top' Htop'. cbn in Htop'. congruence.
Qed.

(** What an undo does when the history has at least two entries. *)
Lemma undo_two_entries ls h prev top :
  read_history ls = (h ++ [prev; top])%list ->
  undoSettings ls =
    (mkLocalStorage (Some (JSON_stringify prev)) (Some (h ++ [prev])%list), Some prev).
Proof.
  intros Hh. unfold undoSettings. rewrite Hh.
  assert (Hlen : length (h ++ [prev; top])%list = S (S (length h))).
  { rewrite length_app. cbn. lia. }
  rewrite Hlen. cbn [Nat.ltb Nat.leb].
  assert (Hpop : pop (h ++ [prev; top])%list = (h ++ [prev])%list).
  { unfold pop. rewrite Hlen.
    replace (h ++ [prev; top])%list with ((h ++ [prev]) ++ [top])%list
      by (rewrite <- app_assoc; reflexivity).
    apply take_app_length'. rewrite length_app. cbn. lia. }
  rewrite Hpop, last_snoc. reflexivity.
Qed.

Lemma two_entries_split (h : list json) :
  (2 <= length h)%nat -> exists rest prev top, h = (rest ++ [prev; top])%list.
Proof.
  intros Hlen.
  destruct h as [|top h'] using rev_ind; [cbn in Hlen; lia|].
  destruct h' as [|prev rest] using rev_ind.
  - cbn in Hlen. lia.
  - exists rest, prev, top. rewrite <- app_assoc. reflexivity.
Qed.

Lemma undo_preserves_invariant ls :
  history_invariant ls -> history_invariant (fst (undoSettings ls)).
Proof.
  intros [Hadj Hcur].
  destruct (decide (2 <= length (read_history ls))%nat) as [Hlen|Hlen].
  - destruct (two_entries_split _ Hlen) as (rest & prev & top & Hh).
    rewrite (undo_two_entries ls rest prev top Hh). cbn [fst].
    split.
    + rewrite read_history_mk. rewrite Hh in Hadj.
      replace (rest ++ [prev; top])%list with ((rest ++ [prev]) ++ [top])%list in Hadj
        by (rewrite <- app_assoc; reflexivity).
      apply (adjacent_distinct_take (length (rest ++ [prev])%list)) in Hadj.
      rewrite take_app_length in Hadj. exact Hadj.
    + intros top'. rewrite read_history_mk, last_snoc. intros [= <-]. reflexivity.
  - unfold undoSettings.
    destruct (Nat.ltb_spec (length (read_history ls)) 2) as [_|Hge]; [|lia].
    split; assumption.
Qed.

Lemma repoLoad_history data ls : read_history (repoLoad data ls) = read_history ls.
Proof. unfold repoLoad. destruct (repoLoad_record data); reflexivity. Qed.

(** C2: the claim fails on the code for a repository load.  A save and an undo
    write the settings and the history together and so keep the history
    invariant (adjacent entries differ, the last entry is the current
    snapshot).  A load of a record whose text differs from the last
    entry writes that record, with its [fontSettingsPerLine] field set,
    as the current settings and nothing else: the history stays as it
    was, where a save of the same record would have appended it, the
    invariant is lost, and an undo after the load removes the snapshot
    that was current before the load, which the load had not saved
    over, and restores the one before it. *)
Theorem repoLoad_bypasses_history (ls : LocalStorage) (props : object) (top : json) :
  let text := match obj_get "text" props with
              | Some t => if truthy t then t else JStr "[]"
              | None => JStr "[]"
              end in
  let loaded := JObj (obj_set "fontSettingsPerLine" text props) in
  history_invariant ls ->
  last (read_history ls) = Some top ->
  JSON_stringify loaded <> JSON_stringify top ->
  history_invariant (saveAllSettingsToLocalStorage loaded ls) /\
  last (read_history (saveAllSettingsToLocalStorage loaded ls)) = Some loaded /\
  history_invariant (fst (undoSettings ls)) /\
  repoLoad (JObj props) ls = mkLocalStorage (Some (JSON_stringify loaded)) (ls_history ls) /\
  read_history (repoLoad (JObj props) ls) = read_history ls /\
  ~ history_invariant (repoLoad (JObj props) ls) /\
  (forall rest prev,
     read_history ls = (rest ++ [prev; top])%list ->
     undoSettings (repoLoad (JObj props) ls)
     = (mkLocalStorage (Some (JSON_stringify prev)) (Some (rest ++ [prev])%list), Some prev)).
Proof.
  cbv zeta. intros Hinv Hlast Hne.
  set (loaded := JObj (obj_set "fontSettingsPerLine" _ props)) in *.
  assert (Hload : repoLoad (JObj props) ls
                  = mkLocalStorage (Some (JSON_stringify loaded)) (ls_history ls))
    by reflexivity.
  assert (Hhist : read_history (repoLoad (JObj props) ls) = read_history ls)
    by (rewrite Hload; reflexivity).
  split; [|split; [|split; [|split; [|split; [|split]]]]].
  - apply save_establishes_invariant. exact (proj1 Hinv).
  - rewrite save_history, Hlast.
    destruct (String.eqb_spec (JSON_stringify top) (JSON_stringify loaded)) as [Heq|_];
      [congruence|].
    apply last_drop_snoc. rewrite length_app. cbn [length]. unfold MAX_HISTORY. lia.
  - apply undo_preserves_invariant. exact Hinv.
  - exact Hload.
  - exact Hhist.
  - intros [_ Hcur]. specialize (Hcur top). rewrite Hhist in Hcur.
    specialize (Hcur Hlast). rewrite Hload in Hcur. cbn [ls_settings] in Hcur. congruence.
  - intros rest prev Hshape. apply (undo_two_entries _ rest prev top). rewrite Hhist. exact Hshape.
Qed.

Lemma repoLoad_bypasses_history_witness :
  let ls := save_all [snap 1; snap 2] empty_storage in
  history_invariant ls /\
  repoLoad (snap 7) ls
  = mkLocalStorage (Some (JSON_stringify (JObj [("a", JNum 7); ("fontSettingsPerLine", JStr "[]")])))
                   (Some [snap 1; snap 2]) /\
  ~ history_invariant (repoLoad (snap 7) ls) /\
  read_history (saveAllSettingsToLocalStorage (snap 7) ls) = [snap 1; snap 2; snap 7] /\
  undoSettings (repoLoad (snap 7) ls)
  = (mkLocalStorage (Some (JSON_stringify (snap 1))) (Some [snap 1]), Some (snap 1)).
Proof.
  cbv zeta.
  assert (Hinv : history_invariant (save_all [snap 1; snap 2] empty_storage)).
  { apply (save_establishes_invariant (snap 2) (save_all [snap 1] empty_storage)).
    intros i a b Ha Hb. destruct i; discriminate. }
  destruct (repoLoad_bypasses_history (save_all [snap 1; snap 2] empty_storage)
              [("a", JNum 7)] (snap 2) Hinv)
    as (_ & _ & _ & Hload & _ & Hbroken & Hundo).
  - reflexivity.
  - vm_compute. discriminate.
  - split; [exact Hinv|]. split; [exact Hload|]. split; [exact Hbroken|].
    split; [vm_compute; reflexivity|].
    exact (Hundo [] (snap 1) eq_refl).
Defined.

(** C3: with fewer than two entries an undo changes neither the history
    nor the current snapshot; otherwise it removes the last entry and
    makes the new last entry the current snapshot.  After saving [{a:1}],
    [{a:2}], [{a:3}], one undo leaves [{a:2}] current and one undo step. *)
Theorem undo_rolls_back (ls : LocalStorage) :
  ((length (read_history ls) < 2)%nat -> undoSettings ls = (ls, None)) /\
  ((2 <= length (read_history ls))%nat ->
   exists rest prev top,
     read_history ls = (rest ++ [prev; top])%list /\
     undoSettings ls =
       (mkLocalStorage (Some (JSON_stringify prev)) (Some (rest ++ [prev])%list), Some prev)) /\
  (let after := fst (undoSettings (save_all [snap 1; snap 2; snap 3] empty_storage)) in
   ls_settings after = Some (JSON_stringify (snap 2)) /\
   read_history after = [snap 1; snap 2] /\
   updateUndoButton after = (1%Z, false)).
Proof.
  split; [|split].
  - intros Hlt. unfold undoSettings.
    destruct (Nat.ltb_spec (length (read_history ls)) 2) as [_|Hge]; [reflexivity|lia].
  - intros Hlen. destruct (two_entries_split _ Hlen) as (rest & prev & top & Hh).
    exists rest, prev, top. split; [exact Hh|]. exact (undo_two_entries ls rest prev top Hh).
  - vm_compute. repeat split.
Qed.

Lemma undo_rolls_back_witness :
  undoSettings (save_all [snap 1] empty_storage) = (save_all [snap 1] empty_storage, None) /\
  exists rest prev top,
    read_history (save_all [snap 1; snap 2] empty_storage) = (rest ++ [prev; top])%list /\
    undoSettings (save_all [snap 1; snap 2] empty_storage) =
      (mkLocalStorage (Some (JSON_stringify prev)) (Some (rest ++ [prev])%list), Some prev).
Proof.
  split.
  - apply (proj1 (undo_rolls_back (save_all [snap 1] empty_storage))).
    vm_compute. lia.
  - apply (proj1 (proj2 (undo_rolls_back (save_all [snap 1; snap 2] empty_storage)))).
    vm_compute. lia.
Defined.

(** ** Content hash *)

Lemma MASK64_ones : MASK64 = Z.ones 64.
Proof. reflexivity. Qed.

Lemma fnv_step_mod hash c :
  fnv_step hash c = ((Z.lxor hash c * FNV_PRIME) mod 2 ^ 64)%Z.
Proof. unfold fnv_step. rewrite MASK64_ones. apply Z.land_ones. lia. Qed.

Lemma char_codes_app s t : char_codes (s +:+ t) = (char_codes s ++ char_codes t)%list.
Proof.
  unfold char_codes. induction s as [|c s IH]; simpl; [reflexivity|].
  f_equal. exact IH.
Qed.

Lemma fnv1a_snoc s c :
  fnv1a (s +:+ String c "") = fnv_step (fnv1a s) (Z.of_N (N_of_ascii c)).
Proof. unfold fnv1a. rewrite char_codes_app, fold_left_app. reflexivity. Qed.

Lemma fnv1a_range s : (0 <= fnv1a s < 2 ^ 64)%Z.
Proof.
  unfold fnv1a. generalize (char_codes s). intros codes.
  induction codes as [|c codes IH] using rev_ind.
  - cbn. unfold FNV_OFFSET_BASIS. lia.
  - rewrite fold_left_app. cbn [fold_left]. rewrite fnv_step_mod.
    apply Z.mod_pos_bound. lia.
Qed.

Lemma value36_digit36 d : (0 <= d < 36)%Z -> value36 (digit36 d) = d.
Proof.
  intros Hd.
  assert (Hall : forallb (fun n => (value36 (digit36 (Z.of_nat n)) =? Z.of_nat n)%Z)
                         (seq 0 36) = true) by (vm_compute; reflexivity).
  rewrite forallb_forall in Hall.
  specialize (Hall (Z.to_nat d)).
  rewrite Z2Nat.id in Hall by lia.
  apply Z.eqb_eq, Hall, in_seq. lia.
Qed.

Lemma parse36_to_radix36 fuel : forall n acc,
  (0 <= n < 2 ^ Z.of_nat fuel)%Z ->
  parse36 0 (to_radix36 fuel n acc) = parse36 n acc.
Proof.
  induction fuel as [|fuel IH]; intros n acc Hn.
  - cbn in Hn. assert (n = 0%Z) by lia. subst n. reflexivity.
  - cbn [to_radix36]. destruct (Z.eqb_spec n 0) as [->|Hnz]; [reflexivity|].
    rewrite IH.
    + cbn [parse36]. rewrite value36_digit36 by (apply Z.mod_pos_bound; lia).
      f_equal. pose proof (Z.div_mod n 36). lia.
    + rewrite Nat2Z.inj_succ, Z.pow_succ_r in Hn by lia.
      split; [apply Z.div_pos; lia|].
      apply Z.div_lt_upper_bound; lia.
Qed.

Lemma parse36_toString36 n : (0 <= n)%Z -> parse36 0 (toString36 n) = n.
Proof.
  intros Hn. unfold toString36. destruct (Z.eqb_spec n 0) as [->|Hnz]; [reflexivity|].
  rewrite parse36_to_radix36; [reflexivity|].
  split; [exact Hn|].
  rewrite Nat2Z.inj_succ, Z2Nat.id by apply Z.log2_nonneg.
  apply Z.log2_spec. lia.
Qed.

(** Trial division is sound: when the flag is still set, no number from
    2 up to the last candidate divides [p]. *)
Lemma trial_division_sound p rounds d :
  Z.odd p = true ->
  trial_division p rounds = (d, true) ->
  forall m, (2 <= m < d)%Z -> ~ (m | p)%Z.
Proof.
  intros Hodd Hrun.
  assert (Hinv : let '(d, ok) := trial_division p rounds in
                 Z.odd d = true /\ (3 <= d)%Z /\
                 (ok = true -> forall m, (2 <= m < d)%Z -> ~ (m | p)%Z)).
  { unfold trial_division. apply Pos.iter_invariant.
    - intros [d0 ok0] (Hd0 & Hge & Hno). cbn [trial_step].
      split; [|split].
      + rewrite Z.odd_add. rewrite Hd0. reflexivity.
      + lia.
      + intros Hok m Hm. apply andb_true_iff in Hok as [Hok0 Hmod].
        apply negb_true_iff, Z.eqb_neq in Hmod.
        destruct (Z_lt_le_dec m d0) as [Hlt|Hge'].
        * apply Hno; [exact Hok0|lia].
        * destruct (Z.eq_dec m d0) as [->|Hne].
          -- intros Hdiv. apply Hmod. apply Z.mod_divide; [lia|exact Hdiv].
          -- assert (m = (d0 + 1)%Z) by lia. subst m.
             intros [q Hq].
             assert (Hev : Z.even p = true).
             { rewrite Hq, Z.even_mul, Z.even_add, <- (Z.negb_odd d0), Hd0.
               cbn. apply orb_true_r. }
             rewrite <- Z.negb_odd, Hodd in Hev. discriminate.
    - split; [reflexivity|]. split; [lia|].
      intros _ m Hm. assert (m = 2%Z) by lia. subst m.
      intros [q Hq].
      assert (Hev : Z.even p = true).
      { rewrite Hq, Z.even_mul. cbn. apply orb_true_r. }
      rewrite <- Z.negb_odd, Hodd in Hev. discriminate. }
  rewrite Hrun in Hinv. destruct Hinv as (_ & _ & Hno). exact (Hno eq_refl).
Qed.

Section Primality.
Local Open Scope Z_scope.

(** A number without a divisor from 2 up to its square root is a prime. *)
Lemma prime_of_no_small_divisor p d :
  (1 < p) -> (0 <= d) -> (p < d * d) ->
  (forall m, (2 <= m < d) -> ~ (m | p)) ->
  Z.prime p.
Proof.
  intros Hp Hd Hsq Hno. split; [exact Hp|].
  intros n Hn [q Hq].
  assert (Hq1 : (1 < q)) by nia.
  destruct (Z_lt_le_dec n d) as [Hsmall|Hbig].
  - apply (Hno n); [lia|]. exists q. exact Hq.
  - destruct (Z_lt_le_dec q d) as [Hqsmall|Hqbig].
    + apply (Hno q); [lia|]. exists n. lia.
    + nia.
Qed.

Lemma trial_division_prime p rounds d :
  Z.odd p = true -> (1 < p) ->
  trial_division p rounds = (d, true) -> (0 <= d) -> (p < d * d) ->
  Z.prime p.
Proof.
  intros Hodd Hp Hrun Hd Hsq.
  apply (prime_of_no_small_divisor p d Hp Hd Hsq).
  exact (trial_division_sound p rounds d Hodd Hrun).
Qed.

(** Every number above 1 has a prime divisor. *)
Lemma prime_divisor_exists n : (1 < n) -> exists p, Z.prime p /\ (p | n).
Proof.
  pattern n. apply (well_founded_induction (Z.lt_wf 0)). clear n.
  intros m IH Hm.
  destruct (prime_dec m) as [Hprime|Hcomposite].
  - exists m. split; [apply prime_alt; exact Hprime|apply Z.divide_refl].
  - destruct (not_prime_divide m Hm Hcomposite) as (d & Hd & Hdiv).
    destruct (IH d) as (p & Hp & Hpd); [lia|lia|].
    exists p. split; [exact Hp|]. eapply Z.divide_trans; eassumption.
Qed.

(** The exponents that send [b] to 1 modulo [p] are closed under [gcd]. *)
Lemma pow_one_gcd p b : (1 < p) -> forall s m n,
  (0 <= m) -> (0 <= n) -> (m + n <= s) ->
  (b ^ m mod p = 1) -> (b ^ n mod p = 1) -> (b ^ Z.gcd m n mod p = 1).
Proof.
  intros Hp s. pattern s. apply (well_founded_induction (Z.lt_wf 0)). clear s.
  intros s IH m n Hm Hn Hsum Hbm Hbn.
  destruct (Z.eq_dec m 0) as [->|Hm0]; [rewrite Z.gcd_0_l, Z.abs_eq by lia; exact Hbn|].
  destruct (Z.eq_dec n 0) as [->|Hn0]; [rewrite Z.gcd_0_r, Z.abs_eq by lia; exact Hbm|].
  destruct (Z_le_gt_dec m n) as [Hle|Hgt].
  - rewrite <- Z.gcd_sub_diag_r.
    assert (Hsplit : (b ^ n = b ^ (n - m) * b ^ m)).
    { rewrite <- Z.pow_add_r by lia. f_equal. lia. }
    rewrite Hsplit, Z.mul_mod, Hbm, Z.mul_1_r, Z.mod_mod in Hbn by lia.
    apply (IH (s - 1) ltac:(lia) m (n - m) ltac:(lia) ltac:(lia) ltac:(lia) Hbm Hbn).
  - rewrite Z.gcd_comm, <- Z.gcd_sub_diag_r.
    assert (Hsplit : (b ^ m = b ^ (m - n) * b ^ n)).
    { rewrite <- Z.pow_add_r by lia. f_equal. lia. }
    rewrite Hsplit, Z.mul_mod, Hbn, Z.mul_1_r, Z.mod_mod in Hbm by lia.
    apply (IH (s - 1) ltac:(lia) n (m - n) ltac:(lia) ltac:(lia) ltac:(lia) Hbn Hbm).
Qed.

(** Pocklington's step: when [a ^ (n - 1)] is 1 modulo [n] and
    [a ^ ((n - 1) / q) - 1] is coprime to [n] for a prime [q] dividing
    [n - 1], every prime divisor of [n] is 1 modulo [q].  The powers are
    taken with the fast modular exponentiation [Zpow_mod]. *)
Lemma pocklington_step n a q k p :
  1 < n -> Z.prime q -> n - 1 = q * k -> 0 <= k ->
  Zpow_mod a (n - 1) n = 1 ->
  Z.gcd (Zpow_mod a k n - 1) n = 1 ->
  Z.prime p -> (p | n) ->
  (q | p - 1).
Proof.
  intros Hn Hq Hk Hk0 Hfull Hpart Hp Hpn.
  rewrite Zpow_mod_correct in Hfull, Hpart by lia.
  pose proof (Z.prime_ge_2 _ Hp) as Hp2. pose proof (Z.prime_ge_2 _ Hq) as Hq2.
  set (b := (a ^ k)).
  assert (Hbq : (b ^ q mod p = 1)).
  { unfold b. rewrite <- Z.pow_mul_r by lia.
    replace (k * q) with (n - 1) by lia.
    rewrite <- (Z.mod_mod_divide _ n p Hpn), Hfull. apply Z.mod_1_l. lia. }
  assert (Hb1 : (b mod p <> 1)).
  { intros Hb. assert (Hdiv : (p | a ^ k mod n - 1)).
    { apply Z.mod_divide; [lia|].
      rewrite Zminus_mod, (Z.mod_mod_divide _ n p Hpn). fold b. rewrite Hb.
      rewrite (Z.mod_1_l p) by lia. reflexivity. }
    pose proof (Z.gcd_greatest _ _ _ Hdiv Hpn) as Hg. rewrite Hpart in Hg.
    apply Z.divide_1_r_nonneg in Hg; lia. }
  assert (Hb0 : (b mod p <> 0)).
  { intros Hb. rewrite <- Z.mod_pow_l, Hb, Z.pow_0_l, Z.mod_0_l in Hbq by lia. lia. }
  pose proof (ZmodInv.Z.fermat_nz p b Hp Hb0) as Hfermat.
  pose proof (pow_one_gcd p b ltac:(lia) (q + (p - 1)) q (p - 1)
                ltac:(lia) ltac:(lia) ltac:(lia) Hbq Hfermat) as Hgcd.
  pose proof (Z.gcd_divide_l q (p - 1)) as Hgl.
  pose proof (Z.gcd_nonneg q (p - 1)) as Hgnn.
  destruct (Z.divide_prime_r _ _ Hq Hgl) as [Hg|[Hg|[Hg|Hg]]]; try lia.
  - rewrite Hg, Z.pow_1_r in Hgcd. contradiction.
  - rewrite <- Hg. apply Z.gcd_divide_r.
Qed.

Lemma prime_977 : Z.prime 977.
Proof. apply (trial_division_prime 977 15 33); [reflexivity|lia|reflexivity|lia|lia]. Qed.

Lemma prime_266051 : Z.prime 266051.
Proof. apply (trial_division_prime 266051 257 517); [reflexivity|lia|reflexivity|lia|lia]. Qed.

Lemma FNV_PRIME_fermat : Zpow_mod 2 (FNV_PRIME - 1) FNV_PRIME = 1.
Proof. vm_compute. reflexivity. Qed.

Lemma FNV_PRIME_coprime_977 : Z.gcd (Zpow_mod 2 1125395730 FNV_PRIME - 1) FNV_PRIME = 1.
Proof. vm_compute. reflexivity. Qed.

Lemma FNV_PRIME_coprime_266051 : Z.gcd (Zpow_mod 2 4132710 FNV_PRIME - 1) FNV_PRIME = 1.
Proof. vm_compute. reflexivity. Qed.

(** [FNV_PRIME - 1 = 977 * 266051 * 4230]: by Pocklington's criterion
    with the base 2 every prime divisor of [FNV_PRIME] is 1 modulo
    [977 * 266051], which exceeds the square root of [FNV_PRIME]. *)
Lemma FNV_PRIME_divisor_large p : Z.prime p -> (p | FNV_PRIME) -> FNV_PRIME < p * p.
Proof.
  intros Hp Hpn. pose proof (Z.prime_ge_2 _ Hp) as Hp2.
  assert (HN : 1 < FNV_PRIME) by (unfold FNV_PRIME; lia).
  pose proof (pocklington_step FNV_PRIME 2 977 1125395730 p HN prime_977 eq_refl
                ltac:(lia) FNV_PRIME_fermat FNV_PRIME_coprime_977 Hp Hpn) as H1.
  pose proof (pocklington_step FNV_PRIME 2 266051 4132710 p HN prime_266051 eq_refl
                ltac:(lia) FNV_PRIME_fermat FNV_PRIME_coprime_266051 Hp Hpn) as H2.
  assert (H12 : (977 * 266051 | p - 1)).
  { destruct H2 as [c Hc]. rewrite Hc, Z.mul_comm in H1.
    apply Z.gauss in H1; [|reflexivity].
    destruct H1 as [e He]. exists e. rewrite Hc, He. ring. }
  destruct H12 as [c Hc]. unfold FNV_PRIME. nia.
Qed.

Lemma FNV_PRIME_is_prime : Z.prime FNV_PRIME.
Proof.
  split; [unfold FNV_PRIME; lia|].
  intros n Hn [m Hm].
  assert (Hm1 : 1 < m) by (unfold FNV_PRIME in *; nia).
  assert (Hsmall : exists d, 1 < d /\ d * d <= FNV_PRIME /\ (d | FNV_PRIME)).
  { destruct (Z_le_gt_dec n m) as [Hle|Hgt].
    - exists n. split; [lia|]. split; [nia|]. exists m. exact Hm.
    - exists m. split; [lia|]. split; [nia|]. exists n. lia. }
  destruct Hsmall as (d & Hd1 & Hdd & HdN).
  destruct (prime_divisor_exists d Hd1) as (p & Hp & Hpd).
  pose proof (Z.prime_ge_2 _ Hp) as Hp2.
  assert (Hple : p <= d) by (apply Z.divide_pos_le; [lia|exact Hpd]).
  pose proof (FNV_PRIME_divisor_large p Hp (Z.divide_trans _ _ _ Hpd HdN)) as Hbig.
  nia.
Qed.
End Primality.

(** C6, as the claim words it (multiply by the prime, then xor the unit
    in, then mask), does not give the hash of the program: the program
    xors first and multiplies afterwards, and the two keys of the
    one-character content [a] differ. *)
Lemma worded_hash_differs : generateHash "a" <> worded_hash "a".
Proof. vm_compute. discriminate. Qed.

(** C6 (amended): the hash is a function of the input string alone: a
    64-bit accumulator starts from a fixed non-zero basis and, for each
    character code in order, is xored with the code and then multiplied
    by a fixed odd prime, modulo [2^64]; the key is the base-36 numeral of
    the final value.  The order of the characters matters. *)
Theorem generateHash_is_fnv1a :
  fnv1a "" = FNV_OFFSET_BASIS /\ FNV_OFFSET_BASIS <> 0%Z /\
  (forall s c, fnv1a (s +:+ String c "")
               = ((Z.lxor (fnv1a s) (Z.of_N (N_of_ascii c)) * FNV_PRIME) mod 2 ^ 64)%Z) /\
  (forall s, (0 <= fnv1a s < 2 ^ 64)%Z) /\
  Z.prime FNV_PRIME /\ Z.odd FNV_PRIME = true /\
  (forall s, parse36 0 (generateHash s) = fnv1a s) /\
  (forall s t, s = t -> generateHash s = generateHash t) /\
  generateHash "ab" <> generateHash "ba".
Proof.
  split; [reflexivity|].
  split; [unfold FNV_OFFSET_BASIS; lia|].
  split; [intros s c; rewrite fnv1a_snoc; apply fnv_step_mod|].
  split; [exact fnv1a_range|].
  split; [exact FNV_PRIME_is_prime|].
  split; [reflexivity|].
  split; [intros s; apply parse36_toString36, fnv1a_range|].
  split; [intros s t ->; reflexivity|].
  vm_compute. discriminate.
Qed.

Lemma generateHash_is_fnv1a_witness :
  parse36 0 (generateHash "xyz") = fnv1a "xyz" /\
  generateHash ("xy" +:+ "z") = generateHash "xyz" /\
  fnv1a ("xy" +:+ String "z" "") = ((Z.lxor (fnv1a "xy") 122 * FNV_PRIME) mod 2 ^ 64)%Z.
Proof.
  destruct generateHash_is_fnv1a as (_ & _ & Hstep & _ & _ & _ & Hkey & Hfun & _).
  split; [exact (Hkey "xyz")|].
  split; [exact (Hfun ("xy" +:+ "z") "xyz" eq_refl)|].
  exact (Hstep "xy" "z"%char).
Defined.

(** ** Image cache *)

(** C5: writing the same content twice gives the same key both times;
    the second write answers [false], changes nothing and overwrites
    nothing; from a store without the key, the two writes add exactly one
    entry. *)
Theorem cache_image_twice (mime1 mime2 content : string) (db : gmap string ImageRecord) :
  let '(key1, (db1, answer1)) := cache_image DbAvailable mime1 content db in
  let '(key2, (db2, answer2)) := cache_image DbAvailable mime2 content db1 in
  key1 = key2 /\ key1 = generateHash content /\
  answer2 = Some false /\ db2 = db1 /\
  is_Some (db1 !! key1) /\
  (forall stored, db !! key1 = Some stored -> db2 = db /\ answer1 = Some false) /\
  (db !! key1 = None ->
   answer1 = Some true /\ size db2 = S (size db) /\
   db2 !! key1 = Some (mkImage mime1 content) /\
   forall other, other <> key1 -> db2 !! other = db !! other).
Proof.
  unfold cache_image, _saveImageToDB.
  destruct (db !! generateHash content) as [stored|] eqn:Hdb.
  - rewrite Hdb. repeat split; eauto; try discriminate.
  - rewrite lookup_insert_eq.
    repeat split; eauto; try discriminate.
    + apply map_size_insert_None. exact Hdb.
    + apply lookup_insert_eq.
    + intros other Hother. apply lookup_insert_ne. congruence.
Qed.

Lemma cache_image_twice_witness :
  let '(key1, (db1, answer1)) := cache_image DbAvailable "image/png" "xyz" ∅ in
  let '(key2, (db2, answer2)) := cache_image DbAvailable "image/png" "xyz" db1 in
  key1 = key2 /\ answer1 = Some true /\ answer2 = Some false /\ size db2 = 1%nat /\
  _getImageFromDB DbAvailable key1 db2 = Some (mkImage "image/png" "xyz").
Proof.
  pose proof (cache_image_twice "image/png" "image/png" "xyz" ∅) as H.
  cbv beta iota zeta delta [cache_image _saveImageToDB] in *.
  rewrite lookup_empty in *. rewrite lookup_insert_eq in *.
  destruct H as (Hk & _ & Ha2 & _ & _ & _ & Hnew).
  destruct (Hnew eq_refl) as (Ha1 & Hsize & Hget & _).
  repeat split; assumption.
Defined.

(** ** Diff *)

Lemma diff_step_other before after st x k :
  k <> x -> entries_at (diff_step before after st x) k = entries_at st k.
Proof.
  intros Hne. unfold diff_step, entries_at.
  destruct (after !! x) as [a|]; [|reflexivity].
  destruct (before !! x) as [b|]; [destruct (decide (a = b))|]; cbn [added changed removed];
    rewrite ?lookup_delete_ne, ?lookup_insert_ne by congruence; reflexivity.
Qed.

Lemma diff_step_self before after st x :
  entries_at st x = (after !! x, Copied <$> after !! x, before !! x) ->
  entries_at (diff_step before after st x) x = classify before after x.
Proof.
  unfold diff_step, entries_at, classify. intros [= Ha Hc Hr].
  destruct (after !! x) as [a|] eqn:Hax.
  - destruct (before !! x) as [b|] eqn:Hbx; [destruct (decide (a = b))|];
      cbn [added changed removed];
      rewrite ?lookup_delete_eq, ?lookup_insert_eq, ?Ha; reflexivity.
  - rewrite Ha, Hc, Hr. cbn. destruct (before !! x); reflexivity.
Qed.

Lemma diff_fold_entries before after ks :
  NoDup ks ->
  forall k,
    entries_at (diff_over ks before after) k =
    if decide (k ∈ ks) then classify before after k
    else (after !! k, Copied <$> after !! k, before !! k).
Proof.
  unfold diff_over.
  induction ks as [|x ks IH] using rev_ind; intros Hnd k.
  - cbn [fold_left]. rewrite decide_False by apply not_elem_of_nil.
    unfold entries_at. cbn [added changed removed]. rewrite lookup_fmap. reflexivity.
  - apply NoDup_app in Hnd as (Hnd & Hfresh & _).
    rewrite fold_left_app. cbn [fold_left].
    destruct (decide (k = x)) as [->|Hne].
    + rewrite decide_True by (apply elem_of_app; right; apply list_elem_of_singleton; reflexivity).
      apply diff_step_self. rewrite IH by exact Hnd.
      rewrite decide_False; [reflexivity|].
      intros Hin. apply (Hfresh x Hin). apply list_elem_of_singleton. reflexivity.
    + rewrite diff_step_other by exact Hne. rewrite IH by exact Hnd.
      destruct (decide (k ∈ ks)) as [Hin|Hnin].
      * rewrite decide_True by (apply elem_of_app; left; exact Hin). reflexivity.
      * rewrite decide_False; [reflexivity|].
        intros Hin. apply elem_of_app in Hin as [Hin|Hin]; [exact (Hnin Hin)|].
        apply list_elem_of_singleton in Hin. exact (Hne Hin).
Qed.

(** The diff classifies every key as the specification says. *)
Lemma diffFlatten_entries before after k :
  entries_at (diffFlatten before after) k = classify before after k.
Proof.
  unfold diffFlatten.
  rewrite diff_fold_entries by apply NoDup_fst_map_to_list.
  change (List.map fst (map_to_list after)) with ((map_to_list after).*1).
  destruct (decide (k ∈ (map_to_list after).*1)) as [Hin|Hnin]; [reflexivity|].
  assert (Hk : after !! k = None).
  { destruct (after !! k) as [a|] eqn:Ha; [|reflexivity].
    exfalso. apply Hnin. apply list_elem_of_fmap. exists (k, a).
    split; [reflexivity|]. apply elem_of_map_to_list. exact Ha. }
  unfold classify. rewrite Hk. cbn. destruct (before !! k); reflexivity.
Qed.

Lemma diff_state_ext d1 d2 :
  (forall k, entries_at d1 k = entries_at d2 k) -> d1 = d2.
Proof.
  intros H. destruct d1 as [a1 c1 r1], d2 as [a2 c2 r2].
  f_equal; apply map_eq; intros k; specialize (H k); unfold entries_at in H;
    cbn [added changed removed] in H; congruence.
Qed.

(** The diff does not depend on the order in which the keys of [after]
    are visited. *)
Lemma diffFlatten_any_order before after keys :
  NoDup keys -> (forall k, k ∈ keys <-> is_Some (after !! k)) ->
  diff_over keys before after = diffFlatten before after.
Proof.
  intros Hnd Hkeys. apply diff_state_ext. intros k.
  rewrite diffFlatten_entries, diff_fold_entries by exact Hnd.
  destruct (decide (k ∈ keys)) as [Hin|Hnin]; [reflexivity|].
  assert (Hk : after !! k = None).
  { destruct (after !! k) eqn:Ha; [|reflexivity].
    exfalso. apply Hnin, Hkeys. eauto. }
  unfold classify. rewrite Hk. cbn. destruct (before !! k); reflexivity.
Qed.

Lemma diffFlatten_from_empty (after : gmap string prim) :
  diffFlatten ∅ after = mkDiff after ∅ ∅.
Proof.
  apply diff_state_ext. intros k. rewrite diffFlatten_entries.
  unfold classify, entries_at. cbn [added changed removed].
  rewrite !lookup_empty. destruct (after !! k); reflexivity.
Qed.

(** C7: a key only in [after] is in [added] with its value; a key in
    both with different values is in [changed] with the pair of the old
    and the new value; a key only in [before] is in [removed] with its
    value; a key with the same value in both, or in neither, is in none of
    the three; every key is in at most one of them.  The diff of the empty
    map against a flattened record has that record as [added] and nothing
    changed or removed. *)
Theorem diffFlatten_classifies (before after : gmap string prim) :
  let d := diffFlatten before after in
  (forall k a, after !! k = Some a -> before !! k = None ->
     added d !! k = Some a /\ changed d !! k = None /\ removed d !! k = None) /\
  (forall k a b, after !! k = Some a -> before !! k = Some b -> a <> b ->
     changed d !! k = Some (FromTo b a) /\ added d !! k = None /\ removed d !! k = None) /\
  (forall k b, before !! k = Some b -> after !! k = None ->
     removed d !! k = Some b /\ added d !! k = None /\ changed d !! k = None) /\
  (forall k, after !! k = before !! k ->
     added d !! k = None /\ changed d !! k = None /\ removed d !! k = None) /\
  (forall JSON_parse fuel record flat,
     flattenObject JSON_parse fuel (Some record) = Some flat ->
     diffFlatten ∅ flat = mkDiff flat ∅ ∅ /\
     compareObjects JSON_parse fuel None (Some record) = Some (mkDiff flat ∅ ∅)).
Proof.
  cbv zeta.
  assert (H : forall k, entries_at (diffFlatten before after) k = classify before after k)
    by (intros k; apply diffFlatten_entries).
  unfold entries_at, classify in H.
  split; [|split; [|split; [|split]]].
  - intros k a Ha Hb. specialize (H k). rewrite Ha, Hb in H.
    injection H as -> -> ->. auto.
  - intros k a b Ha Hb Hne. specialize (H k). rewrite Ha, Hb in H.
    rewrite decide_False in H by exact Hne. injection H as -> -> ->. auto.
  - intros k b Hb Ha. specialize (H k). rewrite Ha, Hb in H.
    injection H as -> -> ->. auto.
  - intros k Heq. specialize (H k). rewrite Heq in H.
    destruct (before !! k) as [b|].
    + rewrite decide_True in H by reflexivity. injection H as -> -> ->. auto.
    + injection H as -> -> ->. auto.
  - intros JSON_parse fuel record flat Hflat.
    split; [apply diffFlatten_from_empty|].
    unfold compareObjects. rewrite Hflat. cbn [flattenObject].
    rewrite diffFlatten_from_empty. reflexivity.
Qed.

Lemma diffFlatten_classifies_witness :
  let before : gmap string prim := {[ "a" := PNum 1; "b" := PNum 2; "c" := PNum 3 ]} in
  let after : gmap string prim := {[ "b" := PNum 2; "c" := PNum 4; "d" := PNum 5 ]} in
  let d := diffFlatten before after in
  added d !! "d" = Some (PNum 5) /\
  changed d !! "c" = Some (FromTo (PNum 3) (PNum 4)) /\
  removed d !! "a" = Some (PNum 1) /\
  (added d !! "b" = None /\ changed d !! "b" = None /\ removed d !! "b" = None) /\
  compareObjects parse_json 2 None (Some [("x", JNum 1)])
    = Some (mkDiff {[ "x" := PNum 1 ]} ∅ ∅).
Proof.
  cbv zeta.
  pose proof (diffFlatten_classifies
                {[ "a" := PNum 1; "b" := PNum 2; "c" := PNum 3 ]}
                {[ "b" := PNum 2; "c" := PNum 4; "d" := PNum 5 ]})
    as (Hadd & Hchg & Hrem & Hsame & Hempty).
  split; [|split; [|split; [|split]]].
  - apply (Hadd "d" (PNum 5)); vm_compute; reflexivity.
  - apply (Hchg "c" (PNum 4) (PNum 3)); vm_compute; (reflexivity || discriminate).
  - apply (Hrem "a" (PNum 1)); vm_compute; reflexivity.
  - apply (Hsame "b"); vm_compute; reflexivity.
  - apply (Hempty parse_json 2%nat [("x", JNum 1)] {[ "x" := PNum 1 ]}).
    vm_compute. reflexivity.
Defined.

(** ** Flattening *)

Section FlattenFacts.
Variable JSON_parse : string -> option json.

Lemma fold_entries_app {A B : Type} (f : A -> B -> option B) (l1 l2 : list A) (acc : B) :
  fold_entries f (l1 ++ l2)%list acc =
    match fold_entries f l1 acc with
    | Some acc' => fold_entries f l2 acc'
    | None => None
    end.
Proof.
  revert acc. induction l1 as [|x l1 IH]; intros acc; cbn; [reflexivity|].
  destruct (f x acc); [apply IH|reflexivity].
Qed.

Lemma visit_some_mono (d1 d2 : list string -> object -> gmap string prim -> option (gmap string prim)) :
  (forall path es acc r, d1 path es acc = Some r -> d2 path es acc = Some r) ->
  forall path entry acc r,
    visit JSON_parse d1 path entry acc = Some r ->
    visit JSON_parse d2 path entry acc = Some r.
Proof.
  intros Hd path [key value] acc r. unfold visit.
  destruct (inspect (decode JSON_parse value)); [trivial|apply Hd].
Qed.

Lemma fold_visit_mono (d1 d2 : list string -> object -> gmap string prim -> option (gmap string prim)) :
  (forall path es acc r, d1 path es acc = Some r -> d2 path es acc = Some r) ->
  forall path es acc r,
    fold_entries (visit JSON_parse d1 path) es acc = Some r ->
    fold_entries (visit JSON_parse d2 path) es acc = Some r.
Proof.
  intros Hd path es. induction es as [|e es IH]; intros acc r; cbn; [trivial|].
  destruct (visit JSON_parse d1 path e acc) as [acc'|] eqn:Hv; [|discriminate].
  rewrite (visit_some_mono d1 d2 Hd _ _ _ _ Hv). apply IH.
Qed.

(** More fuel never changes a result. *)
Lemma dig_fuel_mono fuel : forall fuel' path es acc r,
  (fuel <= fuel')%nat ->
  dig JSON_parse fuel path es acc = Some r ->
  dig JSON_parse fuel' path es acc = Some r.
Proof.
  induction fuel as [|fuel IH]; intros fuel' path es acc r Hle; [discriminate|].
  destruct fuel' as [|fuel']; [lia|]. cbn [dig].
  apply fold_visit_mono. intros p e a r'. apply IH. lia.
Qed.

(** Digging into a record without a leaf returns the accumulator as it
    was, as soon as the fuel covers the depth of the record. *)
Lemma leafless_dig :
  (forall value, leafless JSON_parse value ->
     exists n, forall fuel, (n <= fuel)%nat -> forall path key acc,
       visit JSON_parse (dig JSON_parse fuel) path (key, value) acc = Some acc) /\
  (forall es, leafless_entries JSON_parse es ->
     exists n, forall fuel, (n <= fuel)%nat -> forall path acc,
       fold_entries (visit JSON_parse (dig JSON_parse fuel) path) es acc = Some acc).
Proof.
  apply leafless_mutual.
  - intros value children Hshape _ [n Hn]. exists (S n).
    intros fuel Hfuel path key acc. unfold visit. rewrite Hshape.
    destruct fuel as [|fuel]; [lia|]. cbn [dig]. apply Hn. lia.
  - exists 0%nat. reflexivity.
  - intros key value rest _ [n1 H1] _ [n2 H2]. exists (Nat.max n1 n2).
    intros fuel Hfuel path acc. cbn [fold_entries].
    rewrite H1 by lia. apply H2. lia.
Qed.

Lemma dig_with_leafless_field fuel path pre key value post acc r :
  leafless JSON_parse value ->
  dig JSON_parse fuel path (pre ++ post)%list acc = Some r ->
  exists fuel', (fuel <= fuel')%nat /\
    dig JSON_parse fuel' path (pre ++ (key, value) :: post)%list acc = Some r.
Proof.
  intros Hleaf Hdig. destruct (proj1 leafless_dig value Hleaf) as [n Hn].
  exists (S (Nat.max fuel n)). split; [lia|].
  apply (dig_fuel_mono fuel (S (Nat.max fuel n))) in Hdig; [|lia].
  cbn [dig] in *. rewrite fold_entries_app in *.
  destruct (fold_entries _ pre acc) as [acc1|]; [|discriminate].
  cbn [fold_entries]. rewrite Hn by lia. exact Hdig.
Qed.

Lemma dig_without_leafless_field fuel path pre key value post acc r :
  leafless JSON_parse value ->
  dig JSON_parse fuel path (pre ++ (key, value) :: post)%list acc = Some r ->
  dig JSON_parse fuel path (pre ++ post)%list acc = Some r.
Proof.
  intros Hleaf Hdig. destruct (proj1 leafless_dig value Hleaf) as [n Hn].
  destruct fuel as [|fuel]; [discriminate|].
  cbn [dig] in *. rewrite fold_entries_app in *.
  destruct (fold_entries _ pre acc) as [acc1|]; [|discriminate].
  cbn [fold_entries] in Hdig.
  destruct (visit JSON_parse (dig JSON_parse fuel) path (key, value) acc1)
    as [acc2|] eqn:Hv; [|discriminate].
  assert (Hsame : acc2 = acc1).
  { pose proof (visit_some_mono (dig JSON_parse fuel) (dig JSON_parse (Nat.max fuel n))
                  (fun p e a r' => dig_fuel_mono fuel _ p e a r' (Nat.le_max_l fuel n))
                  _ _ _ _ Hv) as Hbig.
    rewrite Hn in Hbig by lia. congruence. }
  subst acc2. exact Hdig.
Qed.
End FlattenFacts.

(** C10, as the claim words it, fails for a string that [JSON.parse]
    reads as an empty object but that does not begin with a brace: it is
    not decoded and stays a leaf. *)
Lemma flatten_keeps_padded_string :
  leafless_as_worded parse_json (JStr " {}") /\
  flattenObject parse_json 2 (Some [("a", JStr " {}")]) = Some {[ "a" := PStr " {}" ]}.
Proof.
  split.
  - apply (worded_node _ _ []); [vm_compute; reflexivity|constructor].
  - vm_compute. reflexivity.
Qed.

(** C10 (amended): flattening an absent record gives the empty map; the
    strings [{}] and [[]], and every object or array without a leaf,
    plain or serialised in a string that begins and ends with the
    matching braces or brackets, contribute no key: the flattened record
    is the one of the record without that field, and so is every diff
    against it.  A string without these delimiters is never decoded. *)
Theorem flatten_drops_leafless (JSON_parse : string -> option json) :
  (forall fuel, flattenObject JSON_parse fuel None = Some ∅) /\
  (JSON_parse "{}" = Some (JObj []) -> leafless JSON_parse (JStr "{}")) /\
  (JSON_parse "[]" = Some (JArr []) -> leafless JSON_parse (JStr "[]")) /\
  leafless JSON_parse (JObj []) /\ leafless JSON_parse (JArr []) /\
  (forall s, looks_like_json s = false ->
     decode JSON_parse (JStr s) = JStr s /\ ~ leafless JSON_parse (JStr s)) /\
  (forall pre key value post,
     leafless JSON_parse value ->
     (forall fuel flat,
        flattenObject JSON_parse fuel (Some (pre ++ post)%list) = Some flat ->
        exists fuel', (fuel <= fuel')%nat /\
          flattenObject JSON_parse fuel' (Some (pre ++ (key, value) :: post)%list) = Some flat) /\
     (forall fuel flat,
        flattenObject JSON_parse fuel (Some (pre ++ (key, value) :: post)%list) = Some flat ->
        flattenObject JSON_parse fuel (Some (pre ++ post)%list) = Some flat) /\
     (forall fuel before d,
        compareObjects JSON_parse fuel before (Some (pre ++ (key, value) :: post)%list) = Some d ->
        compareObjects JSON_parse fuel before (Some (pre ++ post)%list) = Some d)).
Proof.
  split; [reflexivity|].
  split.
  { intros Hparse. apply (leafless_node _ _ []); [|constructor].
    cbn. rewrite Hparse. reflexivity. }
  split.
  { intros Hparse. apply (leafless_node _ _ []); [|constructor].
    cbn. rewrite Hparse. reflexivity. }
  split; [apply (leafless_node _ _ []); [reflexivity|constructor]|].
  split; [apply (leafless_node _ _ []); [reflexivity|constructor]|].
  split.
  { intros s Hs.
    assert (Hdec : decode JSON_parse (JStr s) = JStr s) by (cbn; rewrite Hs; reflexivity).
    split; [exact Hdec|].
    intros Hleaf. inversion Hleaf as [value children Hshape _ Hvalue].
    rewrite Hdec in Hshape. discriminate. }
  intros pre key value post Hleaf. split; [|split].
  - intros fuel flat. cbn [flattenObject]. apply dig_with_leafless_field. exact Hleaf.
  - intros fuel flat. cbn [flattenObject]. apply dig_without_leafless_field. exact Hleaf.
  - intros fuel before d. unfold compareObjects.
    destruct (flattenObject JSON_parse fuel before) as [b|]; [|discriminate].
    destruct (flattenObject JSON_parse fuel (Some (pre ++ (key, value) :: post)%list))
      as [a|] eqn:Ha; [|discriminate].
    cbn [flattenObject] in Ha.
    apply dig_without_leafless_field in Ha; [|exact Hleaf].
    cbn [flattenObject]. rewrite Ha. trivial.
Qed.

Lemma flatten_drops_leafless_witness :
  leafless parse_json (JStr "{}") /\ leafless parse_json (JStr "[]") /\
  (exists fuel, (1 <= fuel)%nat /\
     flattenObject parse_json fuel (Some [("font", JStr "X"); ("lines", JStr "[]")])
       = Some {[ "font" := PStr "X" ]}) /\
  flattenObject parse_json 2 (Some [("font", JStr "X")]) = Some {[ "font" := PStr "X" ]}.
Proof.
  pose proof (flatten_drops_leafless parse_json) as (_ & Hobj & Harr & _ & _ & _ & Hdrop).
  assert (H1 : leafless parse_json (JStr "{}")) by (apply Hobj; vm_compute; reflexivity).
  assert (H2 : leafless parse_json (JStr "[]")) by (apply Harr; vm_compute; reflexivity).
  split; [exact H1|]. split; [exact H2|]. split.
  - destruct (Hdrop [("font", JStr "X")] "lines" (JStr "[]") [] H2) as (Hgrow & _ & _).
    apply (Hgrow 1%nat). vm_compute. reflexivity.
  - destruct (Hdrop [] "lines" (JStr "{}") [("font", JStr "X")] H1) as (_ & Hsame & _).
    apply (Hsame 2%nat). vm_compute. reflexivity.
Defined.

(** ** Per-line font settings *)

Lemma obj_get_set_eq k v o : obj_get k (obj_set k v o) = Some v.
Proof.
  induction o as [|[k' v'] o IH]; cbn.
  - rewrite String.eqb_refl. reflexivity.
  - destruct (String.eqb_spec k' k) as [->|Hne]; cbn.
    + rewrite String.eqb_refl. reflexivity.
    + destruct (String.eqb_spec k' k); [contradiction|exact IH].
Qed.

Lemma obj_get_set_ne k k' v o : k' <> k -> obj_get k' (obj_set k v o) = obj_get k' o.
Proof.
  intros Hne. induction o as [|[k0 v0] o IH]; cbn.
  - destruct (String.eqb_spec k k'); [congruence|reflexivity].
  - destruct (String.eqb_spec k0 k) as [->|Hk0]; cbn.
    + destruct (String.eqb_spec k k'); [congruence|reflexivity].
    + destruct (String.eqb_spec k0 k'); [reflexivity|exact IH].
Qed.

Lemma style_of_with_text text slot : style_of (with_text text slot) = style_of slot.
Proof.
  unfold with_text, style_of. induction slot as [|[k v] slot IH]; cbn; [reflexivity|].
  destruct (String.eqb_spec k "text") as [->|Hne]; cbn.
  - reflexivity.
  - destruct (String.eqb_spec k "text"); [contradiction|]. cbn. f_equal. exact IH.
Qed.

Lemma style_of_currentFont controls : style_of (currentFont controls) = currentFont controls.
Proof. reflexivity. Qed.

Lemma string_of_nat_parses n :
  exists d, NilZero.uint_of_string (string_of_nat n) = Some d /\ Nat.of_uint d = n.
Proof.
  unfold string_of_nat. pose proof (Unsigned.of_to n) as Hn.
  destruct (Nat.to_uint n) as [| | | | | | | | | |] eqn:Hd;
    try (eexists; split; [apply NilZero.usu; discriminate | exact Hn]).
  exists (D0 Nil). split; [reflexivity|]. rewrite <- Hn. reflexivity.
Qed.

Lemma string_of_nat_nonempty n : String.eqb (string_of_nat n) "" = false.
Proof.
  destruct (string_of_nat_parses n) as (d & Hd & _).
  destruct (string_of_nat n); [discriminate|reflexivity].
Qed.

Lemma array_index_string_of_nat n : array_index (string_of_nat n) = Some n.
Proof.
  unfold array_index. destruct (string_of_nat_parses n) as (d & -> & ->).
  rewrite String.eqb_refl. reflexivity.
Qed.

Lemma parseInt_lineSelect_val selected :
  parseInt (lineSelect_val selected) = selected.
Proof.
  destruct selected as [n|]; [|reflexivity]. cbn.
  rewrite string_of_nat_nonempty.
  destruct (string_of_nat_parses n) as (d & -> & ->). reflexivity.
Qed.

Lemma split_lines_from_nonempty s : forall line, split_lines_from s line <> [].
Proof.
  induction s as [|c s IH]; intros line; cbn; [discriminate|].
  destruct (Ascii.eqb c "010"); [discriminate|].
  destruct (Ascii.eqb c "013"); [|apply IH].
  destruct s as [|c' s']; [apply IH|].
  destruct c' as [[] [] [] [] [] [] [] []]; try apply IH; discriminate.
Qed.

(** The texts are written into the slots one by one; with as many slots
    as texts no write fails. *)
Lemma set_texts_from (texts : list string) : forall (pre arr : list object),
  length arr = length texts ->
  fold_entries set_text (imap (fun i t => (length pre + i, t)%nat) texts) (pre ++ arr)%list
  = Some (pre ++ zip_with (fun slot t => with_text t slot) arr texts)%list.
Proof.
  induction texts as [|t texts IH]; intros pre arr Hlen.
  - destruct arr; [reflexivity|discriminate].
  - destruct arr as [|slot arr]; [discriminate|]. injection Hlen as Hlen.
    cbn [imap fold_entries set_text].
    rewrite Nat.add_0_r. rewrite list_lookup_middle by reflexivity.
    rewrite insert_app_r_alt by lia. rewrite Nat.sub_diag. cbn [insert list_insert].
    specialize (IH (pre ++ [with_text t slot])%list arr Hlen).
    rewrite <- !app_assoc in IH. cbn [app] in IH.
    cbn [zip_with]. etransitivity; [|exact IH].
    f_equal. apply imap_ext. intros i x _. cbn.
    rewrite length_app. cbn. f_equal. lia.
Qed.

Lemma set_texts_zip (texts : list string) (arr : list object) :
  length arr = length texts ->
  set_texts texts arr = Some (zip_with (fun slot t => with_text t slot) arr texts).
Proof.
  intros Hlen. unfold set_texts.
  exact (set_texts_from texts [] arr Hlen).
Qed.

Lemma push_line_selected cf n arr :
  push_line cf (lineSelect_val (Some n)) arr = (arr ++ [assign_copy (last arr)])%list.
Proof.
  unfold push_line. cbn [lineSelect_val strict_equals orb].
  rewrite last_lookup. destruct arr; reflexivity.
Qed.

Lemma push_line_unselected cf arr :
  push_line cf (lineSelect_val None) arr = (arr ++ [cf])%list.
Proof. unfold push_line. cbn [lineSelect_val strict_equals]. rewrite orb_true_r. reflexivity. Qed.

(** The slot that fills the new lines: the current style when no line is
    selected, else a copy of the last slot there was. *)
Lemma grow_closed cf selected n (arr : list object) :
  grow cf (lineSelect_val selected) n arr =
    (arr ++ replicate (n - length arr)
              (match selected with
               | None => cf
               | Some _ => assign_copy (last arr)
               end))%list.
Proof.
  unfold grow. generalize (n - length arr)%nat. intros k.
  induction k as [|k IH].
  - cbn. rewrite app_nil_r. reflexivity.
  - rewrite Nat.iter_succ, IH. cbn [replicate]. destruct selected as [j|].
    + rewrite push_line_selected.
      rewrite replicate_cons_app, app_assoc. f_equal. f_equal.
      rewrite last_app. destruct k; [reflexivity|].
      rewrite replicate_S_end, last_snoc. reflexivity.
    + rewrite push_line_unselected.
      rewrite replicate_cons_app, app_assoc. reflexivity.
Qed.

Lemma replace_selected_closed cf selected (arr : list object) :
  replace_selected cf (lineSelect_val selected) arr =
    match selected with
    | Some j => <[j := cf]> arr
    | None => arr
    end.
Proof.
  unfold replace_selected, array_get. destruct selected as [j|]; [|reflexivity].
  cbn [lineSelect_val to_property_key]. rewrite array_index_string_of_nat.
  destruct (arr !! j) eqn:Hj; [reflexivity|].
  symmetry. apply list_insert_ge. apply lookup_ge_None. exact Hj.
Qed.

(** The independent branch in closed form. *)
Lemma independent_lines_closed cf selected lines (prior : list object) :
  let filler := match selected with
                | None => cf
                | Some _ => assign_copy (last prior)
                end in
  let sized := take (length lines)
                    (prior ++ replicate (length lines - length prior) filler)%list in
  let chosen := match selected with
                | Some j => <[j := cf]> sized
                | None => sized
                end in
  independent_lines cf (lineSelect_val selected) lines prior =
    Some (zip_with (fun slot t => with_text t slot) chosen lines).
Proof.
  cbv zeta. unfold independent_lines.
  rewrite grow_closed, replace_selected_closed.
  apply set_texts_zip.
  assert (Hlen : length (take (length lines)
                   (prior ++ replicate (length lines - length prior)
                      (match selected with
                       | None => cf
                       | Some _ => assign_copy (last prior)
                       end))%list) = length lines).
  { rewrite length_take, length_app, length_replicate. lia. }
  destruct selected; [rewrite length_insert|]; exact Hlen.
Qed.

Lemma split_lines_length label_text :
  Nat.eqb (length (split_lines (or_else label_text ""))) 0 = false.
Proof.
  apply Nat.eqb_neq. intros Hlen. apply nil_length_inv in Hlen.
  exact (split_lines_from_nonempty _ _ Hlen).
Qed.

(** C4, as the claim words it, fails when no line is selected: a new
    slot then takes the current style although a slot precedes it and it
    is not the selected line. *)
Lemma independent_growth_differs :
  exists result,
    setFontSettingsPerLine sample_controls (Some "text")
      (Some ("A" +:+ newline +:+ "B")) (lineSelect_val None) false
      [sample_slot "Y" "A"] = Some result /\
    ~ growth_as_worded (currentFont sample_controls) None [sample_slot "Y" "A"] result.
Proof.
  eexists. split; [vm_compute; reflexivity|].
  intros Hworded. specialize (Hworded 1%nat _ (le_n 1) eq_refl).
  rewrite decide_False in Hworded by (intros [H|H]; discriminate).
  destruct Hworded as (before & Hbefore & Hstyle).
  injection Hbefore as <-. vm_compute in Hstyle. discriminate.
Qed.

(** C4 (amended): in independent mode (not shipping, not synced), with
    a slot stored already or no line selected, the result has one slot
    per line.  The slot of the selected line carries
    the current style.  Every other slot that existed keeps its style, and
    with fewer lines than slots the last slots are gone.  Every other new
    slot carries the current style when no line is selected, and else a
    copy of the last slot that existed, handed on from each new slot to
    the next.  Every slot carries the text of its line. *)
Theorem independent_mode_slots (controls : FontControls) (printType label_text : option string)
    (selected : option nat) (prior : list object) :
  printType <> Some "shipping" ->
  prior <> [] \/ selected = None ->
  let cf := currentFont controls in
  let lines := split_lines (or_else label_text "") in
  exists result,
    setFontSettingsPerLine controls printType label_text (lineSelect_val selected) false prior
      = Some result /\
    length result = length lines /\
    forall i line, lines !! i = Some line ->
      result !! i =
        Some (with_text line
                (if decide (selected = Some i) then cf
                 else match prior !! i with
                      | Some slot => slot
                      | None =>
                          match selected, last prior with
                          | Some _, Some final => final
                          | _, _ => cf
                          end
                      end)).
Proof.
  intros Hmode Hprior cf lines. unfold setFontSettingsPerLine.
  rewrite decide_False by exact Hmode.
  rewrite split_lines_length. fold cf lines.
  rewrite independent_lines_closed.
  set (filler := match selected with
                 | None => cf
                 | Some _ => assign_copy (last prior)
                 end).
  set (sized := take (length lines) (prior ++ replicate (length lines - length prior) filler)%list).
  assert (Hsized : length sized = length lines).
  { unfold sized. rewrite length_take, length_app, length_replicate. lia. }
  set (chosen := match selected with
                 | Some j => <[j := cf]> sized
                 | None => sized
                 end).
  assert (Hchosen : length chosen = length lines).
  { unfold chosen. destruct selected; [rewrite length_insert|]; exact Hsized. }
  eexists. split; [reflexivity|]. split.
  - rewrite length_zip_with_l_eq; assumption.
  - intros i line Hline.
    assert (Hi : (i < length lines)%nat) by (apply lookup_lt_is_Some; eauto).
    assert (Hsz : sized !! i = Some (match prior !! i with
                                     | Some slot => slot
                                     | None => filler
                                     end)).
    { unfold sized. rewrite lookup_take_lt by exact Hi.
      destruct (decide (i < length prior)%nat) as [Hlt|Hge].
      - rewrite lookup_app_l by exact Hlt.
        destruct (prior !! i) eqn:Hp; [reflexivity|].
        apply lookup_ge_None in Hp. lia.
      - rewrite lookup_app_r by lia.
        rewrite lookup_replicate_2 by lia.
        rewrite (lookup_ge_None_2 prior i) by lia. reflexivity. }
    assert (Hfill : filler = match selected, last prior with
                             | Some _, Some final => final
                             | _, _ => cf
                             end).
    { unfold filler. destruct selected as [j|]; [|reflexivity].
      destruct Hprior as [Hne|Hsel]; [|discriminate].
      destruct (last prior) eqn:Hlast; [reflexivity|].
      apply last_None in Hlast. contradiction. }
    rewrite lookup_zip_with, Hline.
    assert (Hch : chosen !! i = Some (if decide (selected = Some i) then cf
                                      else match prior !! i with
                                           | Some slot => slot
                                           | None => filler
                                           end)).
    { unfold chosen. destruct selected as [j|].
      - destruct (decide (Some j = Some i)) as [[= ->]|Hne].
        + apply list_lookup_insert_eq. lia.
        + rewrite list_lookup_insert_ne by congruence. exact Hsz.
      - rewrite decide_False by discriminate. exact Hsz. }
    rewrite Hch, <- Hfill. reflexivity.
Qed.

Lemma independent_mode_slots_witness :
  exists result,
    setFontSettingsPerLine sample_controls (Some "text")
      (Some ("A" +:+ newline +:+ "B" +:+ newline +:+ "C")) (lineSelect_val (Some 1%nat)) false
      [sample_slot "Y" "old"] = Some result /\
    length result = 3%nat /\
    result !! 0%nat = Some (with_text "A" (sample_slot "Y" "old")) /\
    result !! 1%nat = Some (with_text "B" (currentFont sample_controls)) /\
    result !! 2%nat = Some (with_text "C" (sample_slot "Y" "old")).
Proof.
  destruct (independent_mode_slots sample_controls (Some "text")
              (Some ("A" +:+ newline +:+ "B" +:+ newline +:+ "C")) (Some 1%nat)
              [sample_slot "Y" "old"])
    as (result & Hres & Hlen & Hslots).
  - discriminate.
  - left. discriminate.
  - exists result. split; [exact Hres|]. split; [exact Hlen|].
    split; [|split].
    + exact (Hslots 0%nat "A" eq_refl).
    + exact (Hslots 1%nat "B" eq_refl).
    + exact (Hslots 2%nat "C" eq_refl).
Defined.

(** C8: in synced mode (not shipping) the result has one slot per line
    of the text, whatever the slots were, and every slot is a copy of the
    current style with the text of its line added. *)
Theorem synced_mode_slots (controls : FontControls) (printType label_text : option string)
    (selected : jsval) (prior : list object) :
  printType <> Some "shipping" ->
  let cf := currentFont controls in
  let lines := split_lines (or_else label_text "") in
  exists result,
    setFontSettingsPerLine controls printType label_text selected true prior = Some result /\
    length result = length lines /\
    forall i line, lines !! i = Some line ->
      exists slot,
        result !! i = Some slot /\
        slot = with_text line cf /\
        style_of slot = cf /\
        obj_get "text" slot = Some (JStr line).
Proof.
  intros Hmode cf lines. unfold setFontSettingsPerLine.
  rewrite decide_False by exact Hmode.
  rewrite split_lines_length. fold cf lines.
  eexists. split; [reflexivity|]. split.
  - unfold synced_lines. apply length_map.
  - intros i line Hline. exists (with_text line cf).
    split; [|split; [reflexivity|split]].
    + unfold synced_lines.
      change (List.map ?f lines) with (f <$> lines).
      rewrite list_lookup_fmap, Hline. reflexivity.
    + rewrite style_of_with_text. apply style_of_currentFont.
    + apply obj_get_set_eq.
Qed.

Lemma synced_mode_slots_witness :
  exists result,
    setFontSettingsPerLine sample_controls (Some "text")
      (Some ("A" +:+ newline +:+ "B" +:+ newline +:+ "C")) (lineSelect_val (Some 1%nat)) true
      [sample_slot "Y" "old"; sample_slot "Z" "older"; sample_slot "W" "oldest"] = Some result /\
    length result = 3%nat /\
    List.map style_of result = replicate 3 (currentFont sample_controls).
Proof.
  destruct (synced_mode_slots sample_controls (Some "text")
              (Some ("A" +:+ newline +:+ "B" +:+ newline +:+ "C")) (lineSelect_val (Some 1%nat))
              [sample_slot "Y" "old"; sample_slot "Z" "older"; sample_slot "W" "oldest"])
    as (result & Hres & Hlen & Hslots).
  - discriminate.
  - exists result. split; [exact Hres|]. split; [exact Hlen|].
    destruct (Hslots 0%nat "A" eq_refl) as (s0 & H0 & _ & Hs0 & _).
    destruct (Hslots 1%nat "B" eq_refl) as (s1 & H1 & _ & Hs1 & _).
    destruct (Hslots 2%nat "C" eq_refl) as (s2 & H2 & _ & Hs2 & _).
    destruct result as [|r0 [|r1 [|r2 [|r3 rest]]]]; try discriminate.
    cbn in H0, H1, H2. injection H0 as ->. injection H1 as ->. injection H2 as ->.
    cbn [List.map replicate]. rewrite Hs0, Hs1, Hs2. reflexivity.
Defined.

(** C9: in shipping mode the result always has the two named sections,
    whatever the text, the selection and the slots were.  Each slot
    carries its section name as text.  Only the first two of the slots
    count.  A missing slot is a copy of the last slot there was, or the
    current style when there was none; after that the selected section,
    or every section when the styles are synced, takes the current style. *)
Theorem shipping_mode_slots (controls : FontControls) (label_text : option string)
    (selected : option nat) (isSynced : bool) (prior : list object) :
  let cf := currentFont controls in
  let chosen := match selected with
                | Some n => if (2 <=? n)%nat then 0%nat else n
                | None => 0%nat
                end in
  let filler := match last prior with
                | Some slot => slot
                | None => cf
                end in
  let source i := if (isSynced || Nat.eqb i chosen)%bool then cf
                  else match prior !! i with
                       | Some slot => slot
                       | None => filler
                       end in
  let result := [with_text "Sender section" (source 0%nat);
                 with_text "Recipient section" (source 1%nat)] in
  setFontSettingsPerLine controls (Some "shipping") label_text (lineSelect_val selected)
    isSynced prior = Some result /\
  length result = length SHIPPING_LINE_NAMES /\
  (forall i name, SHIPPING_LINE_NAMES !! i = Some name ->
     exists slot, result !! i = Some slot /\ obj_get "text" slot = Some (JStr name)) /\
  setFontSettingsPerLine controls (Some "shipping") label_text (lineSelect_val selected)
    isSynced (take 2 prior) = Some result.
Proof.
  cbv zeta.
  assert (Hrun : forall arr : list object,
    setFontSettingsPerLine controls (Some "shipping") label_text (lineSelect_val selected)
      isSynced arr =
    _setShippingFontSettings (currentFont controls) (lineSelect_val selected) isSynced arr).
  { intros arr. unfold setFontSettingsPerLine. rewrite decide_True by reflexivity. reflexivity. }
  rewrite !Hrun. unfold _setShippingFontSettings.
  rewrite parseInt_lineSelect_val.
  split; [|split; [reflexivity|split]].
  - destruct prior as [|a [|b rest]]; destruct isSynced;
      destruct selected as [[|[|n]]|]; reflexivity.
  - intros i name Hname.
    destruct i as [|[|i]]; cbn in Hname; try discriminate;
      injection Hname as <-; eexists; (split; [reflexivity|apply obj_get_set_eq]).
  - destruct prior as [|a [|b rest]]; destruct isSynced;
      destruct selected as [[|[|n]]|]; reflexivity.
Qed.

Lemma shipping_mode_slots_witness :
  setFontSettingsPerLine sample_controls (Some "shipping") (Some "free text")
    (lineSelect_val (Some 1%nat)) false
    [sample_slot "Y" "a"; sample_slot "Z" "b"; sample_slot "W" "c"]
  = Some [with_text "Sender section" (sample_slot "Y" "a");
          with_text "Recipient section" (currentFont sample_controls)] /\
  exists slot,
    [with_text "Sender section" (sample_slot "Y" "a");
     with_text "Recipient section" (currentFont sample_controls)] !! 1%nat = Some slot /\
    obj_get "text" slot = Some (JStr "Recipient section").
Proof.
  destruct (shipping_mode_slots sample_controls (Some "free text") (Some 1%nat) false
              [sample_slot "Y" "a"; sample_slot "Z" "b"; sample_slot "W" "c"])
    as (Hrun & _ & Htext & _).
  split; [exact Hrun|].
  exact (Htext 1%nat "Recipient section" eq_refl).
Defined.

(** ** More on the undo history *)

Lemma save_last data ls :
  exists top, last (read_history (saveAllSettingsToLocalStorage data ls)) = Some top /\
              JSON_stringify top = JSON_stringify data.
Proof.
  rewrite save_history.
  destruct (last (read_history ls)) as [top|] eqn:Hlast.
  - destruct (String.eqb_spec (JSON_stringify top) (JSON_stringify data)) as [Heq|Hne].
    + exists top. split; [exact Hlast|exact Heq].
    + exists data. split; [|reflexivity].
      apply last_drop_snoc. rewrite length_app. cbn [length]. unfold MAX_HISTORY. lia.
  - exists data. split; reflexivity.
Qed.

Lemma save_again data ls :
  saveAllSettingsToLocalStorage data (saveAllSettingsToLocalStorage data ls)
  = saveAllSettingsToLocalStorage data ls.
Proof.
  destruct (save_last data ls) as (top & Hlast & Htop).
  pose proof (save_settings data ls) as Hset.
  set (ls1 := saveAllSettingsToLocalStorage data ls) in *.
  unfold saveAllSettingsToLocalStorage at 1.
  change (read_history (mkLocalStorage (Some (JSON_stringify data)) (ls_history ls1)))
    with (read_history ls1).
  rewrite Hlast, Htop, String.eqb_refl. cbn [negb orb].
  destruct (read_history ls1) as [|x h] eqn:Hh; [discriminate|].
  cbn [length Nat.eqb orb].
  destruct ls1 as [s h1]. cbn in Hset. subst s. reflexivity.
Qed.

(** X1: Saving the same record twice in a row is the same as saving it once:
    neither the history nor the current settings change the second
    time, and the counter of undo steps stays. *)
Theorem save_twice_is_save_once (data : json) (ls : LocalStorage) :
  saveAllSettingsToLocalStorage data (saveAllSettingsToLocalStorage data ls)
  = saveAllSettingsToLocalStorage data ls /\
  updateUndoButton (saveAllSettingsToLocalStorage data (saveAllSettingsToLocalStorage data ls))
  = updateUndoButton (saveAllSettingsToLocalStorage data ls).
Proof. rewrite save_again. split; reflexivity. Qed.

(** The history after a save that appended, then an undo. *)
Lemma undo_after_push data ls top :
  last (read_history ls) = Some top ->
  JSON_stringify top <> JSON_stringify data ->
  undoSettings (saveAllSettingsToLocalStorage data ls) =
    (mkLocalStorage (Some (JSON_stringify top))
       (Some (drop (length (read_history ls) + 1 - MAX_HISTORY) (read_history ls))),
     Some top).
Proof.
  intros Hlast Hne.
  apply last_Some in Hlast as [h Hh].
  assert (Hhist : read_history (saveAllSettingsToLocalStorage data ls)
                  = (drop (length (read_history ls) + 1 - MAX_HISTORY) h ++ [top; data])%list).
  { rewrite save_history, Hh, last_snoc.
    destruct (String.eqb_spec (JSON_stringify top) (JSON_stringify data)); [contradiction|].
    rewrite !length_app. cbn [length].
    replace ((h ++ [top]) ++ [data])%list with (h ++ [top; data])%list
      by (rewrite <- app_assoc; reflexivity).
    apply drop_app_le. unfold MAX_HISTORY. lia. }
  rewrite (undo_two_entries _ _ top data Hhist). f_equal. f_equal. f_equal.
  rewrite Hh, length_app. cbn [length].
  rewrite drop_app_le by (unfold MAX_HISTORY; lia). reflexivity.
Qed.

(** X2: An undo right after a save that changed something brings back the
    settings saved before; below the capacity of the history it brings
    back the whole history, at capacity the oldest entry stays lost. *)
Theorem undo_after_save (data : json) (ls : LocalStorage) (top : json) :
  last (read_history ls) = Some top ->
  JSON_stringify top <> JSON_stringify data ->
  let after := fst (undoSettings (saveAllSettingsToLocalStorage data ls)) in
  ls_settings after = Some (JSON_stringify top) /\
  ((length (read_history ls) < MAX_HISTORY)%nat -> read_history after = read_history ls) /\
  ((MAX_HISTORY <= length (read_history ls))%nat ->
   read_history after
   = drop (length (read_history ls) + 1 - MAX_HISTORY) (read_history ls) /\
   (length (read_history after) < length (read_history ls))%nat).
Proof.
  intros Hlast Hne. cbv zeta. rewrite (undo_after_push data ls top Hlast Hne).
  cbn [fst ls_settings]. rewrite read_history_mk.
  split; [reflexivity|]. split.
  - intros Hlt. replace (length (read_history ls) + 1 - MAX_HISTORY)%nat with 0%nat by lia.
    reflexivity.
  - intros Hge. split; [reflexivity|]. rewrite length_drop. unfold MAX_HISTORY in *. lia.
Qed.

Lemma undo_after_save_witness :
  let ls := save_all [snap 1; snap 2] empty_storage in
  let after := fst (undoSettings (saveAllSettingsToLocalStorage (snap 3) ls)) in
  ls_settings after = Some (JSON_stringify (snap 2)) /\ read_history after = read_history ls.
Proof.
  cbv zeta.
  destruct (undo_after_save (snap 3) (save_all [snap 1; snap 2] empty_storage) (snap 2))
    as (Hset & Hbelow & _).
  - reflexivity.
  - vm_compute. discriminate.
  - split; [exact Hset|]. apply Hbelow. vm_compute. lia.
Defined.

Lemma undo_history ls :
  read_history (fst (undoSettings ls)) =
    take (Nat.max (Nat.min 1 (length (read_history ls))) (length (read_history ls) - 1))
         (read_history ls).
Proof.
  destruct (decide (2 <= length (read_history ls))%nat) as [Hlen|Hlen].
  - destruct (two_entries_split _ Hlen) as (rest & prev & top & Hh).
    rewrite (undo_two_entries ls rest prev top Hh). cbn [fst]. rewrite read_history_mk, Hh.
    rewrite length_app. cbn [length].
    replace (Nat.max _ _) with (length (rest ++ [prev])%list)
      by (rewrite length_app; cbn [length]; lia).
    replace (rest ++ [prev; top])%list with ((rest ++ [prev]) ++ [top])%list
      by (rewrite <- app_assoc; reflexivity).
    rewrite take_app_length. reflexivity.
  - unfold undoSettings.
    destruct (Nat.ltb_spec (length (read_history ls)) 2) as [_|Hge]; [|lia].
    cbn [fst]. symmetry. apply take_ge. lia.
Qed.

(** X3: [n] undos roll the history back by [n] entries, but never past its
    oldest entry; an empty history stays empty. *)
Theorem undo_times_history (n : nat) (ls : LocalStorage) :
  read_history (undo_times n ls) =
    take (Nat.max (Nat.min 1 (length (read_history ls))) (length (read_history ls) - n))
         (read_history ls) /\
  undo_steps (undo_times n ls) = Z.max 0 (undo_steps ls - Z.of_nat n).
Proof.
  assert (Hhist : forall n, read_history (undo_times n ls) =
    take (Nat.max (Nat.min 1 (length (read_history ls))) (length (read_history ls) - n))
         (read_history ls)).
  { clear n. induction n as [|n IH].
    - cbn. symmetry. apply take_ge. lia.
    - unfold undo_times in *. rewrite Nat.iter_succ, undo_history, IH.
      rewrite length_take, take_take. f_equal. lia. }
  split; [apply Hhist|].
  unfold undo_steps. rewrite Hhist, length_take. lia.
Qed.

Lemma apply_op_bound op ls :
  (length (read_history ls) <= MAX_HISTORY)%nat ->
  (length (read_history (apply_op ls op)) <= MAX_HISTORY)%nat.
Proof.
  intros Hlen. destruct op as [data| |data]; cbn [apply_op].
  - rewrite save_history. destruct (last (read_history ls)) as [top|].
    + destruct (String.eqb (JSON_stringify top) (JSON_stringify data)); [exact Hlen|].
      rewrite length_drop, length_app. cbn [length]. unfold MAX_HISTORY in *. lia.
    + cbn. unfold MAX_HISTORY. lia.
  - rewrite undo_history, length_take. lia.
  - rewrite repoLoad_history. exact Hlen.
Qed.

Lemma apply_op_adjacent op ls :
  adjacent_distinct (read_history ls) ->
  adjacent_distinct (read_history (apply_op ls op)).
Proof.
  intros Hadj. destruct op as [data| |data]; cbn [apply_op].
  - exact (proj1 (save_establishes_invariant data ls Hadj)).
  - rewrite undo_history. apply adjacent_distinct_take. exact Hadj.
  - rewrite repoLoad_history. exact Hadj.
Qed.

(** X4: Along every sequence of saves, undos and repository loads the
    history stays within its capacity and free of equal neighbours; when
    the sequence ends with a save, the last entry is the current
    snapshot again, whatever a load did before. *)
Theorem run_ops_keeps_history (ops : list storage_op) (ls : LocalStorage) :
  (length (read_history ls) <= MAX_HISTORY)%nat ->
  adjacent_distinct (read_history ls) ->
  (length (read_history (run_ops ops ls)) <= MAX_HISTORY)%nat /\
  adjacent_distinct (read_history (run_ops ops ls)) /\
  (forall data, history_invariant (run_ops (ops ++ [OpSave data]) ls)).
Proof.
  intros Hlen Hadj.
  assert (H : (length (read_history (run_ops ops ls)) <= MAX_HISTORY)%nat /\
              adjacent_distinct (read_history (run_ops ops ls))).
  { unfold run_ops. revert ls Hlen Hadj. induction ops as [|op ops IH]; intros ls Hlen Hadj.
    - split; assumption.
    - cbn [fold_left]. apply IH; [apply apply_op_bound|apply apply_op_adjacent]; assumption. }
  destruct H as [H1 H2]. split; [exact H1|]. split; [exact H2|].
  intros data. unfold run_ops in *. rewrite fold_left_app. cbn [fold_left apply_op].
  apply save_establishes_invariant. exact H2.
Qed.

Lemma run_ops_keeps_history_witness :
  let ops := [OpSave (snap 1); OpLoad (snap 7); OpUndo; OpSave (snap 2)] in
  (length (read_history (run_ops ops empty_storage)) <= MAX_HISTORY)%nat /\
  history_invariant (run_ops (ops ++ [OpSave (snap 3)]) empty_storage).
Proof.
  cbv zeta.
  destruct (run_ops_keeps_history
              [OpSave (snap 1); OpLoad (snap 7); OpUndo; OpSave (snap 2)] empty_storage)
    as (Hlen & _ & Hinv).
  - cbn. lia.
  - intros i a b Ha. destruct i; discriminate.
  - split; [exact Hlen|apply Hinv].
Defined.

Lemma save_twice_is_save_once_witness :
  saveAllSettingsToLocalStorage (snap 1) (saveAllSettingsToLocalStorage (snap 1) empty_storage)
  = saveAllSettingsToLocalStorage (snap 1) empty_storage.
Proof. exact (proj1 (save_twice_is_save_once (snap 1) empty_storage)). Defined.

Lemma undo_times_history_witness :
  read_history (undo_times 5 (save_all [snap 1; snap 2; snap 3] empty_storage)) = [snap 1].
Proof.
  exact (proj1 (undo_times_history 5 (save_all [snap 1; snap 2; snap 3] empty_storage))).
Defined.

(** ** Data URLs *)

Lemma append_cons x s t : String x s +:+ t = String x (s +:+ t).
Proof. reflexivity. Qed.

Lemma append_empty t : "" +:+ t = t.
Proof. reflexivity. Qed.

Ltac string_simpl := rewrite ?append_cons, ?append_empty in *; simpl in *.

Lemma indexOf_length c s n : indexOf c s = Some n -> (n < String.length s)%nat.
Proof.
  revert n. induction s as [|x s IH]; intros n; string_simpl; [discriminate|].
  destruct (Ascii.eqb x c).
  - intros [= <-]. lia.
  - destruct (indexOf c s) as [m|]; [|discriminate]. intros [= <-].
    specialize (IH m eq_refl). lia.
Qed.

Lemma indexOf_app c s t :
  indexOf c s = None -> indexOf c (s +:+ String c t) = Some (String.length s).
Proof.
  induction s as [|x s IH]; string_simpl.
  - rewrite Ascii.eqb_refl. reflexivity.
  - destruct (Ascii.eqb x c); [discriminate|].
    destruct (indexOf c s); [discriminate|]. intros _. rewrite IH; reflexivity.
Qed.

Lemma indexOf_app_none c s t :
  indexOf c s = None -> indexOf c t = None -> indexOf c (s +:+ t) = None.
Proof.
  intros Hs Ht. induction s as [|x s IH]; simpl in *; [exact Ht|].
  destruct (Ascii.eqb x c); [discriminate|].
  destruct (indexOf c s); [discriminate|]. rewrite IH; reflexivity.
Qed.

Lemma indexOf_split c s n :
  indexOf c s = Some n ->
  exists head tail, s = head +:+ String c tail /\ String.length head = n /\
                    indexOf c head = None.
Proof.
  revert n. induction s as [|x s IH]; intros n; string_simpl; [discriminate|].
  destruct (Ascii.eqb_spec x c) as [->|Hne].
  - intros [= <-]. exists "", s. repeat split.
  - destruct (indexOf c s) as [m|]; [|discriminate]. intros [= <-].
    destruct (IH m eq_refl) as (head & tail & -> & Hlen & Hnone).
    exists (String x head), tail. simpl. rewrite Hlen, Hnone.
    destruct (Ascii.eqb_spec x c); [contradiction|]. repeat split.
Qed.

Lemma length_append s t : String.length (s +:+ t) = (String.length s + String.length t)%nat.
Proof. induction s as [|x s IH]; string_simpl; [reflexivity|]. rewrite IH. reflexivity. Qed.

Lemma substring_skip p s m :
  String.substring (String.length p) m (p +:+ s) = String.substring 0 m s.
Proof. induction p as [|x p IH]; string_simpl; [reflexivity|exact IH]. Qed.

Lemma substring_prefix s t : String.substring 0 (String.length s) (s +:+ t) = s.
Proof.
  induction s as [|x s IH]; string_simpl; [destruct t; reflexivity|]. rewrite IH. reflexivity.
Qed.

Lemma substring_all s : String.substring 0 (String.length s) s = s.
Proof. induction s as [|x s IH]; string_simpl; [reflexivity|]. rewrite IH. reflexivity. Qed.

(** The part of [p ++ s ++ t] between the end of [p] and the end of [s]. *)
Lemma js_substring_middle p s t :
  js_substring (String.length p) (String.length p + String.length s) (p +:+ s +:+ t) = s.
Proof.
  unfold js_substring. rewrite !length_append.
  replace (Nat.min _ (Nat.min _ _)) with (String.length p) by lia.
  replace (Nat.max _ _ - String.length p)%nat with (String.length s) by lia.
  rewrite substring_skip. apply substring_prefix.
Qed.

Lemma js_substring_from_app p s :
  js_substring_from (String.length p) (p +:+ s) = s.
Proof.
  unfold js_substring_from, js_substring. rewrite !length_append.
  replace (Nat.min (Nat.min _ _) _) with (String.length p) by lia.
  replace (Nat.max _ _ - String.length p)%nat with (String.length s) by lia.
  rewrite substring_skip. apply substring_all.
Qed.

Lemma before_first_app c s t :
  indexOf c s = None -> before_first c (s +:+ String c t) = s.
Proof.
  induction s as [|x s IH]; string_simpl.
  - rewrite Ascii.eqb_refl. reflexivity.
  - destruct (Ascii.eqb x c); [discriminate|].
    destruct (indexOf c s); [discriminate|]. intros _. rewrite IH; reflexivity.
Qed.

Lemma before_first_none c s : indexOf c s = None -> before_first c s = s.
Proof.
  induction s as [|x s IH]; string_simpl; [reflexivity|].
  destruct (Ascii.eqb x c); [discriminate|].
  destruct (indexOf c s); [discriminate|]. intros _. rewrite IH; reflexivity.
Qed.

Lemma before_first_free c s : indexOf c (before_first c s) = None.
Proof.
  induction s as [|x s IH]; string_simpl; [reflexivity|].
  destruct (Ascii.eqb x c) eqn:Hx; string_simpl; [reflexivity|]. rewrite Hx, IH. reflexivity.
Qed.

Lemma before_first_keeps_free c d s :
  indexOf d s = None -> indexOf d (before_first c s) = None.
Proof.
  induction s as [|x s IH]; string_simpl; [reflexivity|].
  destruct (Ascii.eqb x d) eqn:Hd; [discriminate|].
  destruct (indexOf d s); [discriminate|]. intros _.
  destruct (Ascii.eqb x c); string_simpl; [reflexivity|]. rewrite Hd, IH; reflexivity.
Qed.

Lemma append_assoc s t u : (s +:+ t) +:+ u = s +:+ (t +:+ u).
Proof. induction s as [|x s IH]; string_simpl; [reflexivity|]. rewrite IH. reflexivity. Qed.

(** A data URL [data:<mime><params>,<payload>] whose media type holds no
    comma and no semicolon, and whose parameters (empty, or led by a
    semicolon) hold no comma. *)
Lemma parseDataUrl_data m params payload :
  indexOf "," m = None -> indexOf ";" m = None ->
  indexOf "," params = None ->
  params = "" \/ (exists rest, params = String ";" rest) ->
  parseDataUrl ("data:" +:+ m +:+ params +:+ String "," payload)
  = mkParts (Some m) (Some payload).
Proof.
  intros Hm Hsemi Hparams Hshape. unfold parseDataUrl.
  assert (Hhead : indexOf "," ("data:" +:+ m +:+ params) = None).
  { apply (indexOf_app_none "," "data:"); [reflexivity|].
    apply indexOf_app_none; assumption. }
  replace ("data:" +:+ m +:+ params +:+ String "," payload)
    with (("data:" +:+ m +:+ params) +:+ String "," payload)
    by (rewrite !append_assoc; reflexivity).
  rewrite (indexOf_app _ _ _ Hhead). f_equal.
  - f_equal.
    replace (("data:" +:+ m +:+ params) +:+ String "," payload)
      with ("data:" +:+ (m +:+ params) +:+ String "," payload)
      by (rewrite !append_assoc; reflexivity).
    replace (String.length ("data:" +:+ m +:+ params))
      with (String.length "data:" + String.length (m +:+ params))%nat
      by (rewrite !length_append; reflexivity).
    change 5%nat with (String.length "data:").
    rewrite js_substring_middle.
    destruct Hshape as [->|[rest ->]].
    + replace (m +:+ "") with m by (clear; induction m; string_simpl; congruence).
      apply before_first_none, Hsemi.
    + apply before_first_app, Hsemi.
  - f_equal.
    replace (String.length ("data:" +:+ m +:+ params) + 1)%nat
      with (String.length (("data:" +:+ m +:+ params) +:+ ","))
      by (rewrite !length_append; reflexivity).
    replace (("data:" +:+ m +:+ params) +:+ String "," payload)
      with ((("data:" +:+ m +:+ params) +:+ ",") +:+ payload)
      by (rewrite !append_assoc; reflexivity).
    apply js_substring_from_app.
Qed.

(** X5: parseDataUrl reads a well-formed data URL back: the media type is
    what stands between [data:] and the parameters, and the payload is
    everything after the first comma, further commas included. *)
Theorem parseDataUrl_round_trip (m params payload : string) :
  indexOf "," m = None -> indexOf ";" m = None ->
  indexOf "," params = None ->
  params = "" \/ (exists rest, params = String ";" rest) ->
  parseDataUrl ("data:" +:+ m +:+ params +:+ String "," payload)
  = mkParts (Some m) (Some payload).
Proof. apply parseDataUrl_data. Qed.

Lemma parseDataUrl_round_trip_witness :
  parseDataUrl ("data:" +:+ "image/png" +:+ ";base64" +:+ String "," "iVBO,Rw0=")
  = mkParts (Some "image/png") (Some "iVBO,Rw0=").
Proof.
  apply parseDataUrl_round_trip; try reflexivity.
  right. exists "base64". reflexivity.
Defined.

Lemma parseDataUrl_comma u comma :
  indexOf "," u = Some comma ->
  exists head payload,
    u = head +:+ String "," payload /\ String.length head = comma /\
    indexOf "," head = None /\
    parts_b64 (parseDataUrl u) = Some payload /\
    parts_mime (parseDataUrl u) = Some (before_first ";" (js_substring 5 comma u)).
Proof.
  intros Hcomma. destruct (indexOf_split _ _ _ Hcomma) as (head & payload & Hu & Hlen & Hnone).
  exists head, payload. repeat split; try assumption.
  - unfold parseDataUrl. rewrite Hcomma. cbn [parts_b64]. f_equal. subst u.
    replace (comma + 1)%nat with (String.length (head +:+ ","))
      by (rewrite length_append; string_simpl; lia).
    replace (head +:+ String "," payload) with ((head +:+ ",") +:+ payload)
      by (rewrite append_assoc; reflexivity).
    apply js_substring_from_app.
  - unfold parseDataUrl. rewrite Hcomma. reflexivity.
Qed.

Lemma parseDataUrl_cuts_free u comma :
  indexOf "," u = Some comma -> (5 <= comma)%nat ->
  exists mime payload,
    parseDataUrl u = mkParts (Some mime) (Some payload) /\
    indexOf ";" mime = None /\ indexOf "," mime = None.
Proof.
  intros Hcomma Hge.
  destruct (parseDataUrl_comma u comma Hcomma) as (head & payload & Hu & Hlen & Hnone & Hb & Hm).
  exists (before_first ";" (js_substring 5 comma u)), payload.
  split; [|split].
  - destruct (parseDataUrl u) as [pm pb]. simpl in *. congruence.
  - apply before_first_free.
  - apply before_first_keeps_free.
    subst u comma.
    assert (Hparts : exists p h, head = p +:+ h /\ String.length p = 5%nat).
    { clear -Hge.
      destruct head as [|c1 [|c2 [|c3 [|c4 [|c5 h]]]]]; try (cbn in Hge; lia).
      exists (String c1 (String c2 (String c3 (String c4 (String c5 ""))))), h.
      split; reflexivity. }
    destruct Hparts as (p & h & -> & Hp).
    replace ((p +:+ h) +:+ String "," payload) with (p +:+ h +:+ String "," payload)
      by (rewrite append_assoc; reflexivity).
    rewrite length_append, <- Hp, js_substring_middle.
    clear -Hnone. induction p as [|x p IH]; simpl in *; [exact Hnone|].
    destruct (Ascii.eqb x ","); [discriminate|].
    destruct (indexOf "," (p +:+ h)); [discriminate|]. apply IH. reflexivity.
Qed.

(** X6: parseDataUrl answers two nulls exactly on a string without a comma.
    On any other string it cuts at the first comma: the payload is all
    that follows it, and the media type holds no semicolon; only when
    the comma stands before index 5 can the media type hold a comma
    (the two ends of the substring are then exchanged). *)
Theorem parseDataUrl_cuts_at_first_comma (u : string) :
  (indexOf "," u = None <-> parseDataUrl u = mkParts None None) /\
  (forall comma, indexOf "," u = Some comma ->
     exists head payload mime,
       u = head +:+ String "," payload /\ indexOf "," head = None /\
       parseDataUrl u = mkParts (Some mime) (Some payload) /\
       indexOf ";" mime = None /\
       ((5 <= comma)%nat -> indexOf "," mime = None)).
Proof.
  split.
  - unfold parseDataUrl. destruct (indexOf "," u); split; congruence.
  - intros comma Hcomma.
    destruct (parseDataUrl_comma u comma Hcomma) as (head & payload & Hu & Hlen & Hnone & Hb & Hm).
    exists head, payload, (before_first ";" (js_substring 5 comma u)).
    repeat split; try assumption.
    + destruct (parseDataUrl u) as [pm pb]. simpl in *. congruence.
    + apply before_first_free.
    + intros Hge.
      destruct (parseDataUrl_cuts_free u comma Hcomma Hge) as (m & p & Hparse & _ & Hfree).
      unfold parseDataUrl in Hparse. rewrite Hcomma in Hparse.
      injection Hparse as <- _. exact Hfree.
Qed.

Lemma parseDataUrl_cuts_at_first_comma_witness :
  parseDataUrl "no comma here" = mkParts None None.
Proof.
  apply (proj1 (parseDataUrl_cuts_at_first_comma "no comma here")). reflexivity.
Defined.

(** ** The keys of the image cache *)

Lemma is_digit36_digit36 d : (0 <= d < 36)%Z -> is_digit36 (digit36 d) = true.
Proof.
  intros Hd.
  assert (Hall : forallb (fun n => is_digit36 (digit36 (Z.of_nat n))) (seq 0 36) = true)
    by (vm_compute; reflexivity).
  rewrite forallb_forall in Hall.
  specialize (Hall (Z.to_nat d)).
  rewrite Z2Nat.id in Hall by lia.
  apply Hall, in_seq. lia.
Qed.

Lemma to_radix36_digits fuel : forall n acc,
  (0 <= n)%Z -> string_forallb is_digit36 acc = true ->
  string_forallb is_digit36 (to_radix36 fuel n acc) = true.
Proof.
  induction fuel as [|fuel IH]; intros n acc Hn Hacc; [exact Hacc|].
  cbn [to_radix36]. destruct (Z.eqb_spec n 0) as [_|Hnz]; [exact Hacc|].
  apply IH.
  - apply Z.div_pos; lia.
  - cbn [string_forallb]. rewrite is_digit36_digit36 by (apply Z.mod_pos_bound; lia).
    exact Hacc.
Qed.

Lemma to_radix36_length_ge fuel : forall n acc,
  (String.length acc <= String.length (to_radix36 fuel n acc))%nat.
Proof.
  induction fuel as [|fuel IH]; intros n acc; [cbn; lia|].
  cbn [to_radix36]. destruct (n =? 0)%Z; [lia|].
  etransitivity; [|apply IH]. cbn. lia.
Qed.

Lemma to_radix36_length_le fuel : forall n acc k,
  (0 <= n < 36 ^ Z.of_nat k)%Z ->
  (String.length (to_radix36 fuel n acc) <= k + String.length acc)%nat.
Proof.
  induction fuel as [|fuel IH]; intros n acc k Hn; [cbn; lia|].
  cbn [to_radix36]. destruct (Z.eqb_spec n 0) as [_|Hnz]; [lia|].
  destruct k as [|k]; [cbn in Hn; lia|].
  rewrite Nat2Z.inj_succ, Z.pow_succ_r in Hn by lia.
  etransitivity; [apply (IH _ _ k)|cbn [String.length]; lia].
  split; [apply Z.div_pos; lia|apply Z.div_lt_upper_bound; lia].
Qed.

(** X7: The key under which an image is cached is a numeral of one to
    thirteen characters, each a digit or a lower-case letter, and two
    contents get the same key exactly when their 64-bit hashes agree. *)
Theorem generateHash_key_format (s : string) :
  (1 <= String.length (generateHash s) <= 13)%nat /\
  string_forallb is_digit36 (generateHash s) = true /\
  (forall t, generateHash s = generateHash t <-> fnv1a s = fnv1a t).
Proof.
  pose proof (fnv1a_range s) as Hs.
  split; [|split].
  - unfold generateHash, toString36.
    destruct (Z.eqb_spec (fnv1a s) 0) as [_|Hnz]; [cbn; lia|].
    split.
    + cbn [to_radix36]. destruct (Z.eqb_spec (fnv1a s) 0); [contradiction|].
      etransitivity; [|apply to_radix36_length_ge]. cbn. lia.
    + etransitivity; [apply (to_radix36_length_le _ _ _ 13)|cbn; lia].
      split; [lia|]. eapply Z.lt_le_trans; [apply Hs|]. cbv. discriminate.
  - unfold generateHash, toString36.
    destruct (Z.eqb_spec (fnv1a s) 0) as [_|Hnz]; [reflexivity|].
    apply to_radix36_digits; [lia|reflexivity].
  - intros t. split.
    + intros Heq. unfold generateHash in Heq.
      rewrite <- (parse36_toString36 (fnv1a s)), <- (parse36_toString36 (fnv1a t)), Heq
        by apply fnv1a_range.
      reflexivity.
    + unfold generateHash. intros ->. reflexivity.
Qed.

Lemma generateHash_key_format_witness :
  (1 <= String.length (generateHash "iVBORw0KGgo=") <= 13)%nat.
Proof. exact (proj1 (generateHash_key_format "iVBORw0KGgo=")). Defined.


Lemma generateHash_nonempty s : String.eqb (generateHash s) "" = false.
Proof.
  unfold generateHash, toString36.
  destruct (Z.eqb_spec (fnv1a s) 0) as [_|Hnz]; [reflexivity|].
  cbn [to_radix36]. destruct (Z.eqb_spec (fnv1a s) 0); [contradiction|].
  pose proof (to_radix36_length_ge (Z.to_nat (Z.log2 (fnv1a s))) (fnv1a s / 36)
                (String (digit36 (fnv1a s mod 36)) "")) as Hlen.
  destruct (to_radix36 _ _ _); [cbn in Hlen; lia|reflexivity].
Qed.

(** ** The image across a save and a restore *)

Lemma or_else_nonempty v d : d <> "" -> String.eqb (or_else v d) "" = false.
Proof.
  intros Hd. unfold or_else. destruct v as [s|].
  - destruct (String.eqb s "") eqn:Hs; [|exact Hs]. apply String.eqb_neq, Hd.
  - apply String.eqb_neq, Hd.
Qed.

Lemma or_else_free c v d :
  (forall s, v = Some s -> indexOf c s = None) -> indexOf c d = None ->
  indexOf c (or_else v d) = None.
Proof.
  intros Hv Hd. unfold or_else. destruct v as [s|]; [|exact Hd].
  destruct (String.eqb s ""); [exact Hd|]. apply Hv. reflexivity.
Qed.

(** X8: An image saved from the drop zone comes back on restore.  For a
    data URL whose first comma stands at index 5 or later and is followed
    by a payload, and a cache that is available and holds nothing under
    the key of the payload, the save writes a reference that the restore
    resolves: the data URL handed back parses to the payload that was
    saved and to the media type that was saved ([image/png] when that was
    empty), and the file gets the saved name. *)
Theorem image_survives_save_and_restore
    (f : DropFile) (rest : list DropFile) (u m payload : string)
    (data : object) (db : gmap string ImageRecord) :
  file_dataURL f = Some u ->
  (exists comma, indexOf "," u = Some comma /\ (5 <= comma)%nat) ->
  parseDataUrl u = mkParts (Some m) (Some payload) ->
  payload <> "" ->
  db !! generateHash payload = None ->
  let '(data', db') := save_image DbAvailable (f :: rest) data db in
  exists file,
    restore_image DbAvailable data' db' = Some file /\
    parseDataUrl (restored_dataUrl file)
    = mkParts (Some (or_else (Some m) "image/png")) (Some payload) /\
    restored_type file = or_else (Some m) "image/png" /\
    restored_name file = JStr (or_else (file_name f) "image").
Proof.
  intros Hurl (comma & Hcomma & Hge) Hparse Hpayload Hfree.
  destruct (parseDataUrl_cuts_free u comma Hcomma Hge) as (m0 & p0 & Hparse0 & Hsemi & Hcom).
  rewrite Hparse in Hparse0. injection Hparse0 as <- <-.
  unfold save_image. rewrite Hurl, Hparse. cbn [parts_b64 parts_mime].
  destruct (String.eqb_spec payload "") as [|_]; [contradiction|].
  unfold cache_image, _saveImageToDB. rewrite Hfree.
  eexists. split; [|split; [|split]].
  - unfold restore_image.
    rewrite obj_get_set_ne, obj_get_set_ne, obj_get_set_eq by discriminate.
    rewrite generateHash_nonempty. unfold _getImageFromDB.
    rewrite lookup_insert_eq. cbn [b64 mime].
    destruct (String.eqb_spec payload "") as [|_]; [contradiction|].
    rewrite obj_get_set_eq. unfold prop_or, truthy.
    rewrite or_else_nonempty by discriminate. reflexivity.
  - cbn [restored_dataUrl].
    apply (parseDataUrl_data _ ";base64" payload).
    + apply or_else_free; [intros s [= <-]; exact Hcom|reflexivity].
    + apply or_else_free; [intros s [= <-]; exact Hsemi|reflexivity].
    + reflexivity.
    + right. exists "base64". reflexivity.
  - reflexivity.
  - reflexivity.
Qed.

Lemma image_survives_save_and_restore_witness :
  let f := mkFile (Some "logo.png") (Some "data:image/png;base64,iVBORw0KGgo=") in
  let '(data', db') := save_image DbAvailable [f] [("label_text", JStr "hi")] ∅ in
  exists file,
    restore_image DbAvailable data' db' = Some file /\
    parseDataUrl (restored_dataUrl file) = mkParts (Some "image/png") (Some "iVBORw0KGgo=") /\
    restored_type file = "image/png" /\
    restored_name file = JStr "logo.png".
Proof.
  apply (image_survives_save_and_restore
           (mkFile (Some "logo.png") (Some "data:image/png;base64,iVBORw0KGgo=")) []
           "data:image/png;base64,iVBORw0KGgo=" "image/png" "iVBORw0KGgo="
           [("label_text", JStr "hi")] ∅).
  - reflexivity.
  - exists 21%nat. split; [reflexivity|lia].
  - reflexivity.
  - discriminate.
  - reflexivity.
Defined.

(** ** The form across a save and a restore *)

Lemma collect_element_writes data e :
  collect_element data e
  = if writes e then obj_set (element_key e) (written_value e) data else data.
Proof.
  unfold collect_element, writes, written_value.
  destruct (String.eqb (el_id e) "lineSelect"); [reflexivity|].
  destruct (String.length (element_key e) =? 0)%nat; [reflexivity|].
  destruct (String.eqb (el_type e) "checkbox") eqn:Hbox.
  - destruct (String.eqb_spec (el_type e) "radio") as [Hradio|_]; [|reflexivity].
    rewrite Hradio in Hbox. discriminate.
  - destruct (String.eqb (el_type e) "radio"); [|reflexivity].
    cbn. destruct (el_checked e || el_parent_active e)%bool; reflexivity.
Qed.

Lemma collect_element_other data e k :
  (writes e = true -> element_key e <> k) ->
  obj_get k (collect_element data e) = obj_get k data.
Proof.
  intros Hother. rewrite collect_element_writes.
  destruct (writes e); [|reflexivity].
  apply obj_get_set_ne. intros ->. exact (Hother eq_refl eq_refl).
Qed.

Lemma collect_fold_other els : forall data k,
  (forall e, In e els -> writes e = true -> element_key e <> k) ->
  obj_get k (fold_left collect_element els data) = obj_get k data.
Proof.
  induction els as [|e els IH]; intros data k Hother; [reflexivity|].
  cbn [fold_left]. rewrite IH.
  - apply collect_element_other. apply Hother. left. reflexivity.
  - intros e' Hin. apply Hother. right. exact Hin.
Qed.

Lemma collect_form_last_writer pre e post :
  writes e = true ->
  (forall e', In e' post -> writes e' = true -> element_key e' <> element_key e) ->
  obj_get (element_key e) (collect_form (pre ++ e :: post)) = Some (written_value e).
Proof.
  intros Hw Hpost. unfold collect_form. rewrite fold_left_app. cbn [fold_left].
  rewrite collect_fold_other by exact Hpost.
  rewrite collect_element_writes, Hw. apply obj_get_set_eq.
Qed.

Lemma collect_form_none els k :
  obj_get k (collect_form els) = None ->
  forall e, In e els -> writes e = true -> element_key e <> k.
Proof.
  unfold collect_form. induction els as [|x els IH] using rev_ind; intros Hnone e Hin Hw.
  - destruct Hin.
  - rewrite fold_left_app in Hnone. cbn [fold_left] in Hnone.
    rewrite collect_element_writes in Hnone.
    destruct (writes x) eqn:Hwx.
    + destruct (String.eqb_spec (element_key x) k) as [Hkx|Hkx].
      * rewrite Hkx, obj_get_set_eq in Hnone. discriminate.
      * rewrite obj_get_set_ne in Hnone by congruence.
        apply in_app_or in Hin as [Hin|[<-|[]]]; [|exact Hkx].
        apply IH; assumption.
    + apply in_app_or in Hin as [Hin|[<-|[]]]; [|congruence].
      apply IH; assumption.
Qed.

(** X9: What a save collects from the form: a property is there exactly for
    the keys some control writes, and its value is that of the last
    control writing it.  The line selector, a control without id (or
    radio name), and a radio button neither checked nor in an active
    parent write nothing. *)
Theorem collect_form_properties (elements : list FormElement) (k : string) :
  (obj_get k (collect_form elements) = None <->
   forall e, In e elements -> writes e = true -> element_key e <> k) /\
  (forall pre e post,
     elements = (pre ++ e :: post)%list -> writes e = true -> element_key e = k ->
     (forall e', In e' post -> writes e' = true -> element_key e' <> k) ->
     obj_get k (collect_form elements) = Some (written_value e)) /\
  (forall e, el_id e = "lineSelect" \/ element_key e = "" \/
             (el_type e = "radio" /\ el_checked e = false /\ el_parent_active e = false) ->
             writes e = false).
Proof.
  split; [|split].
  - split.
    + apply collect_form_none.
    + intros Hother. unfold collect_form. rewrite collect_fold_other by exact Hother.
      reflexivity.
  - intros pre e post -> Hw <- Hpost. apply collect_form_last_writer; assumption.
  - intros e [Hid|[Hkey|(Htype & Hc & Hp)]]; unfold writes.
    + rewrite Hid. reflexivity.
    + rewrite Hkey. cbn. rewrite andb_false_r. reflexivity.
    + rewrite Htype, Hc, Hp. cbn. apply andb_false_r.
Qed.

Lemma collect_form_properties_witness :
  obj_get "lineSelect"
    (collect_form [mkElement "lineSelect" "" "select-one" false false (JStr "0");
                   mkElement "font_size" "" "number" false false (JStr "70")]) = None.
Proof.
  apply (proj1 (collect_form_properties _ "lineSelect")).
  intros e Hin Hw Hkey. cbn in Hin.
  destruct Hin as [<-|[<-|[]]]; cbn in Hw, Hkey; discriminate.
Defined.


Section RestoreFacts.

Variable loose_equals : json -> json -> bool.
Hypothesis loose_equals_strings :
  forall s t, loose_equals (JStr s) (JStr t) = String.eqb s t.


End RestoreFacts.



(** ** More on the diff *)

Lemma classify_swap before after k :
  classify after before k
  = let '(a, c, r) := classify before after k in (r, reverse_change <$> c, a).
Proof.
  unfold classify.
  destruct (after !! k) as [a|], (before !! k) as [b|]; try reflexivity.
  destruct (decide (a = b)) as [->|Hne].
  - rewrite decide_True by reflexivity. reflexivity.
  - rewrite decide_False by congruence. reflexivity.
Qed.

(** X11: The diff is empty exactly when the two flattened records are equal;
    so comparing a record with itself, as a save does for an unchanged
    form, reports nothing. *)
Theorem diffFlatten_empty_iff_equal (before after : gmap string prim) :
  (diffFlatten before after = mkDiff ∅ ∅ ∅ <-> after = before) /\
  (forall JSON_parse fuel record flat,
     flattenObject JSON_parse fuel record = Some flat ->
     compareObjects JSON_parse fuel record record = Some (mkDiff ∅ ∅ ∅)).
Proof.
  assert (Hiff : forall b a : gmap string prim, diffFlatten b a = mkDiff ∅ ∅ ∅ <-> a = b).
  { intros b a. split.
    - intros Hd. apply map_eq. intros k.
      pose proof (diffFlatten_entries b a k) as Hk. rewrite Hd in Hk.
      unfold entries_at, classify in Hk. cbn [added changed removed] in Hk.
      rewrite !lookup_empty in Hk.
      destruct (a !! k) as [x|], (b !! k) as [y|]; try congruence.
      destruct (decide (x = y)); congruence.
    - intros ->. apply diff_state_ext. intros k. rewrite diffFlatten_entries.
      unfold entries_at, classify. cbn [added changed removed]. rewrite !lookup_empty.
      destruct (b !! k) as [y|]; [|reflexivity].
      rewrite decide_True by reflexivity. reflexivity. }
  split; [apply Hiff|].
  intros JSON_parse fuel record flat Hflat. unfold compareObjects. rewrite Hflat.
  f_equal. apply Hiff. reflexivity.
Qed.

Lemma diffFlatten_empty_iff_equal_witness :
  diffFlatten {[ "a" := PNum 1 ]} {[ "a" := PNum 1 ]} = mkDiff ∅ ∅ ∅ /\
  compareObjects parse_json 3 (Some [("a", JObj [("b", JNum 1)])])
                 (Some [("a", JObj [("b", JNum 1)])]) = Some (mkDiff ∅ ∅ ∅).
Proof.
  destruct (diffFlatten_empty_iff_equal {[ "a" := PNum 1 ]} {[ "a" := PNum 1 ]})
    as [Hiff Hcompare].
  split.
  - apply Hiff. reflexivity.
  - apply (Hcompare parse_json 3%nat _ {[ "a.b" := PNum 1 ]}). vm_compute. reflexivity.
Defined.

(** X12: Exchanging the two records turns the diff around: what was added is
    removed, what was removed is added, and every change is read
    backwards.  No entry of [changed] is left as a bare copy of a value:
    each is a pair of the old and the new value. *)
Theorem diffFlatten_swap (before after : gmap string prim) :
  added (diffFlatten after before) = removed (diffFlatten before after) /\
  removed (diffFlatten after before) = added (diffFlatten before after) /\
  changed (diffFlatten after before) = reverse_change <$> changed (diffFlatten before after) /\
  (forall k c, changed (diffFlatten before after) !! k = Some c ->
     exists from to, c = FromTo from to /\ from <> to /\
                     before !! k = Some from /\ after !! k = Some to).
Proof.
  assert (Hk : forall k,
    entries_at (diffFlatten after before) k
    = let '(a, c, r) := entries_at (diffFlatten before after) k in
      (r, reverse_change <$> c, a)).
  { intros k. rewrite !diffFlatten_entries. apply classify_swap. }
  unfold entries_at in Hk.
  split; [|split; [|split]].
  - apply map_eq. intros k. specialize (Hk k). congruence.
  - apply map_eq. intros k. specialize (Hk k). congruence.
  - apply map_eq. intros k. specialize (Hk k). rewrite lookup_fmap. congruence.
  - intros k c Hc. pose proof (diffFlatten_entries before after k) as He.
    unfold entries_at, classify in He. rewrite Hc in He.
    destruct (after !! k) as [a|], (before !! k) as [b|]; try congruence.
    destruct (decide (a = b)) as [|Hne]; [congruence|].
    exists b, a. repeat split; congruence.
Qed.

(** ** The structure of a flattened record *)

Section FlattenStructure.
Variable JSON_parse : string -> option json.

Lemma concat_cons sep (q : string) (path : list string) :
  path <> [] -> String.concat sep (q :: path) = q +:+ sep +:+ String.concat sep path.
Proof. destruct path; [contradiction|reflexivity]. Qed.

Lemma under_insert q k p (m : gmap string prim) :
  under q (<[k := p]> m) = <[q +:+ "." +:+ k := p]> (under q m).
Proof. unfold under. apply (kmap_insert (fun name => q +:+ "." +:+ name)). Qed.

(** The entries visited go on top of the accumulator. *)
Lemma dig_accumulates fuel : forall path es acc,
  dig JSON_parse fuel path es acc
  = (fun m => m ∪ acc) <$> dig JSON_parse fuel path es ∅.
Proof.
  induction fuel as [|fuel IH]; intros path es acc; [reflexivity|].
  cbn [dig].
  assert (Hfold : forall acc1 acc2,
    fold_entries (visit JSON_parse (dig JSON_parse fuel) path) es (acc1 ∪ acc2)
    = (fun m => m ∪ acc2) <$> fold_entries (visit JSON_parse (dig JSON_parse fuel) path) es acc1).
  { induction es as [|[key value] es IHes]; intros acc1 acc2; [reflexivity|].
    cbn [fold_entries]. unfold visit at 1 3.
    destruct (inspect (decode JSON_parse value)) as [p|children].
    - rewrite <- IHes. f_equal. apply insert_union_l.
    - rewrite (IH _ _ (acc1 ∪ acc2)), (IH _ _ acc1).
      destruct (dig JSON_parse fuel (path ++ [key]) children ∅) as [m|]; [|reflexivity].
      cbn [fmap option_fmap option_map]. rewrite <- IHes. f_equal. apply assoc. apply _. }
  rewrite <- (Hfold ∅ acc). f_equal. symmetry. apply (left_id ∅ (∪)).
Qed.

(** Digging one level further down prefixes every key. *)
Lemma dig_under q fuel : forall path es acc,
  dig JSON_parse fuel (q :: path) es (under q acc)
  = under q <$> dig JSON_parse fuel path es acc.
Proof.
  induction fuel as [|fuel IH]; intros path es acc; [reflexivity|].
  cbn [dig]. revert acc.
  induction es as [|[key value] es IHes]; intros acc; [reflexivity|].
  cbn [fold_entries]. unfold visit at 1 3.
  destruct (inspect (decode JSON_parse value)) as [p|children].
  - change ((q :: path) ++ [key])%list with (q :: (path ++ [key]))%list.
    rewrite concat_cons by (destruct path; discriminate).
    rewrite <- under_insert. apply IHes.
  - change ((q :: path) ++ [key])%list with (q :: (path ++ [key]))%list.
    rewrite IH.
    destruct (dig JSON_parse fuel (path ++ [key]) children acc) as [m|]; [|reflexivity].
    cbn [fmap option_fmap option_map]. apply IHes.
Qed.

End FlattenStructure.

(** X13: flattenObject is built along the record.  The empty record gives the
    empty map; the fields of a record are laid one over the other, a
    later field winning on a shared key; a field with a leaf value gives
    its own key; and a field holding an object or an array (plain, or
    serialised in a string that decodes to one) gives the flattened
    children with the field name and a dot put before each key. *)
Theorem flattenObject_compositional (JSON_parse : string -> option json) :
  (forall fuel, flattenObject JSON_parse (S fuel) (Some []) = Some ∅) /\
  (forall fuel fields1 fields2 flat1 flat2,
     flattenObject JSON_parse fuel (Some fields1) = Some flat1 ->
     flattenObject JSON_parse fuel (Some fields2) = Some flat2 ->
     flattenObject JSON_parse fuel (Some (fields1 ++ fields2)%list) = Some (flat2 ∪ flat1)) /\
  (forall fuel key value p,
     inspect (decode JSON_parse value) = Leaf p ->
     flattenObject JSON_parse (S fuel) (Some [(key, value)]) = Some {[ key := p ]}) /\
  (forall fuel key value children flat,
     inspect (decode JSON_parse value) = Node children ->
     flattenObject JSON_parse fuel (Some children) = Some flat ->
     flattenObject JSON_parse (S fuel) (Some [(key, value)]) = Some (under key flat)).
Proof.
  split; [reflexivity|]. split; [|split].
  - intros fuel fields1 fields2 flat1 flat2 H1 H2. cbn [flattenObject] in *.
    destruct fuel as [|fuel]; [discriminate|]. cbn [dig] in *.
    rewrite fold_entries_app, H1.
    change (fold_entries (visit JSON_parse (dig JSON_parse fuel) []) fields2 flat1)
      with (dig JSON_parse (S fuel) [] fields2 flat1).
    rewrite dig_accumulates. cbn [dig]. rewrite H2. reflexivity.
  - intros fuel key value p Hleaf. cbn [flattenObject dig fold_entries]. unfold visit.
    rewrite Hleaf. reflexivity.
  - intros fuel key value children flat Hnode Hflat.
    cbn [flattenObject dig fold_entries] in *. unfold visit. rewrite Hnode.
    change ([] ++ [key])%list with [key].
    replace (∅ : gmap string prim) with (under key ∅) at 1
      by (unfold under; apply kmap_empty; apply _).
    rewrite dig_under, Hflat. reflexivity.
Qed.

Lemma flattenObject_compositional_witness :
  flattenObject parse_json 3
    (Some [("size", JNum 3); ("font", JObj [("name", JStr "Serif"); ("bold", JBool true)])])
  = Some (under "font" {[ "name" := PStr "Serif"; "bold" := PBool true ]} ∪ {[ "size" := PNum 3 ]}).
Proof.
  destruct (flattenObject_compositional parse_json) as (_ & Happ & Hleaf & Hnode).
  apply (Happ 3%nat [("size", JNum 3)]
              [("font", JObj [("name", JStr "Serif"); ("bold", JBool true)])]).
  - apply (Hleaf 2%nat). reflexivity.
  - apply (Hnode 2%nat "font" _ [("name", JStr "Serif"); ("bold", JBool true)]); [reflexivity|].
    vm_compute. reflexivity.
Defined.

Lemma diffFlatten_swap_witness :
  added (diffFlatten {[ "a" := PNum 1 ]} {[ "b" := PNum 2 ]})
  = removed (diffFlatten {[ "b" := PNum 2 ]} {[ "a" := PNum 1 ]}).
Proof.
  exact (proj1 (diffFlatten_swap {[ "b" := PNum 2 ]} {[ "a" := PNum 1 ]})).
Defined.

(** ** Lines of the label text *)

Lemma append_snoc line c s : (line +:+ String c "") +:+ s = line +:+ String c s.
Proof. induction line as [|x line IH]; [reflexivity|]. rewrite !append_cons, IH. reflexivity. Qed.

Lemma not_line_break c s :
  indexOf carriage_return (String c s) = None -> Ascii.eqb c "013" = false.
Proof.
  cbn [indexOf]. unfold carriage_return.
  destruct (Ascii.eqb c "013"); [discriminate|reflexivity].
Qed.

Lemma indexOf_tail x c s : indexOf x (String c s) = None -> indexOf x s = None.
Proof.
  cbn [indexOf]. destruct (Ascii.eqb c x); [discriminate|].
  destruct (indexOf x s); [discriminate|reflexivity].
Qed.

Lemma indexOf_snoc_none x line c :
  indexOf x line = None -> Ascii.eqb c x = false -> indexOf x (line +:+ String c "") = None.
Proof.
  intros Hline Hc. apply indexOf_app_none; [exact Hline|].
  cbn [indexOf]. rewrite Hc. reflexivity.
Qed.

Lemma split_lines_from_join s : forall line,
  indexOf carriage_return s = None ->
  String.concat newline (split_lines_from s line) = line +:+ s.
Proof.
  induction s as [|c s IH]; intros line Hcr.
  - cbn. clear. induction line as [|x line IH]; [reflexivity|].
    rewrite append_cons, <- IH. reflexivity.
  - pose proof (not_line_break _ _ Hcr) as Hc. apply indexOf_tail in Hcr.
    cbn [split_lines_from]. rewrite Hc.
    destruct (Ascii.eqb_spec c "010") as [->|Hne].
    + rewrite concat_cons by apply split_lines_from_nonempty.
      rewrite IH by exact Hcr. reflexivity.
    + rewrite IH by exact Hcr. apply append_snoc.
Qed.

Lemma split_lines_from_free s : forall line l,
  indexOf line_feed line = None ->
  In l (split_lines_from s line) -> indexOf line_feed l = None.
Proof.
  induction s as [|c s IH]; intros line l Hline Hin.
  - destruct Hin as [<-|[]]. exact Hline.
  - cbn [split_lines_from] in Hin.
    destruct (Ascii.eqb c "010") eqn:Hlf.
    + destruct Hin as [<-|Hin]; [exact Hline|]. apply (IH "" l); [reflexivity|exact Hin].
    + assert (Hkeep : indexOf line_feed (line +:+ String c "") = None)
        by (apply indexOf_snoc_none; assumption).
      destruct (Ascii.eqb c "013").
      * destruct s as [|c' s']; [apply (IH _ l Hkeep Hin)|].
        destruct (Ascii.eqb_spec c' "010") as [->|Hne].
        -- destruct Hin as [<-|Hin]; [exact Hline|].
           apply (IH "" l); [reflexivity|].
           cbn [split_lines_from]. rewrite Ascii.eqb_refl. right. exact Hin.
        -- assert (Hsame : match c' with
                           | "010"%char => line :: split_lines_from s' ""
                           | _ => split_lines_from (String c' s') (line +:+ String c "")
                           end = split_lines_from (String c' s') (line +:+ String c "")).
           { destruct c' as [[] [] [] [] [] [] [] []]; try reflexivity. contradiction. }
           rewrite Hsame in Hin. apply (IH _ l Hkeep Hin).
      * apply (IH _ l Hkeep Hin).
Qed.

(** X14: The label text is cut at every line feed (and at a carriage return
    directly before one): there is always at least one line, no line
    holds a line feed, and for a text without carriage returns, as a
    text area delivers it, the lines joined by line feeds are the text
    again. *)
Theorem split_lines_round_trip (text : string) :
  split_lines text <> [] /\
  (forall line, In line (split_lines text) -> indexOf line_feed line = None) /\
  (indexOf carriage_return text = None ->
   String.concat newline (split_lines text) = text).
Proof.
  split; [apply split_lines_from_nonempty|]. split.
  - intros line. apply split_lines_from_free. reflexivity.
  - intros Hcr. unfold split_lines. rewrite split_lines_from_join by exact Hcr. reflexivity.
Qed.

Lemma split_lines_round_trip_witness :
  String.concat newline (split_lines ("ab" +:+ newline +:+ newline +:+ "c"))
  = "ab" +:+ newline +:+ newline +:+ "c".
Proof.
  destruct (split_lines_round_trip ("ab" +:+ newline +:+ newline +:+ "c")) as (_ & _ & Hjoin).
  apply Hjoin. reflexivity.
Defined.

(** ** The line under the caret *)

Lemma falsy_length line : (if String.eqb line "" then 0 else String.length line)%nat
                          = String.length line.
Proof. destruct line; reflexivity. Qed.

Lemma split_lines_from_head s : forall line,
  indexOf carriage_return s = None ->
  exists first rest, split_lines_from s line = first :: rest /\
                     (String.length line <= String.length first)%nat.
Proof.
  induction s as [|c s IH]; intros line Hcr.
  - exists line, []. split; [reflexivity|lia].
  - pose proof (not_line_break _ _ Hcr) as Hc. apply indexOf_tail in Hcr.
    cbn [split_lines_from]. rewrite Hc.
    destruct (Ascii.eqb c "010").
    + eexists _, _. split; [reflexivity|lia].
    + destruct (IH (line +:+ String c "") Hcr) as (first & rest & -> & Hlen).
      exists first, rest. split; [reflexivity|].
      rewrite length_append in Hlen. lia.
Qed.

Lemma caret_scan_split pre : forall post line i charCount,
  indexOf carriage_return (pre +:+ post) = None ->
  S (caret_scan (charCount + String.length line + String.length pre)
                (split_lines_from (pre +:+ post) line) i charCount)
  = (i + length (split_lines_from pre line))%nat.
Proof.
  induction pre as [|c pre IH]; intros post line i charCount Hcr.
  - rewrite append_empty in *. cbn [String.length split_lines_from length].
    destruct (split_lines_from_head post line Hcr) as (first & rest & -> & Hlen).
    cbn [caret_scan]. rewrite falsy_length.
    destruct (Nat.ltb_spec (charCount + String.length line + 0)
                           (charCount + String.length first + 1)); lia.
  - rewrite append_cons in *.
    pose proof (not_line_break _ _ Hcr) as Hc. apply indexOf_tail in Hcr.
    cbn [split_lines_from]. rewrite Hc.
    destruct (Ascii.eqb c "010").
    + cbn [caret_scan length String.length]. rewrite falsy_length.
      destruct (Nat.ltb_spec (charCount + String.length line + S (String.length pre))
                             (charCount + String.length line + 1)); [lia|].
      specialize (IH post "" (S i) (charCount + String.length line + 1)%nat Hcr).
      cbn [String.length] in IH |- *.
      replace (charCount + String.length line + S (String.length pre))%nat
        with (charCount + String.length line + 1 + 0 + String.length pre)%nat by lia.
      rewrite IH.
      assert (Hsame : length (split_lines_from pre "") = length (split_lines_from pre "")) by reflexivity.
      lia.
    + specialize (IH post (line +:+ String c "") i charCount Hcr).
      rewrite length_append in IH. cbn [String.length] in IH |- *.
      replace (charCount + String.length line + S (String.length pre))%nat
        with (charCount + (String.length line + 1) + String.length pre)%nat by lia.
      exact IH.
Qed.

(** X15: The line selector follows the caret.  In a text without carriage
    returns, as a text area delivers it, a caret standing after [before]
    selects the line on which [before] ends: its index is the number of
    lines of [before], less one, and it is the index of a line of the
    whole text. *)
Theorem caret_line_is_line_of_caret (before after : string) :
  indexOf carriage_return (before +:+ after) = None ->
  S (caret_line (before +:+ after) (String.length before)) = length (split_lines before) /\
  (caret_line (before +:+ after) (String.length before)
   < length (split_lines (before +:+ after)))%nat.
Proof.
  intros Hcr.
  pose proof (caret_scan_split before after "" 0 0 Hcr) as Hscan.
  cbn [String.length Nat.add] in Hscan. unfold caret_line, split_lines.
  split; [exact Hscan|].
  assert (Hmono : forall pre post line,
             indexOf carriage_return (pre +:+ post) = None ->
             (length (split_lines_from pre line)
              <= length (split_lines_from (pre +:+ post) line))%nat).
  { clear. induction pre as [|c pre IH]; intros post line Hcr.
    - rewrite append_empty. cbn [split_lines_from length].
      pose proof (split_lines_from_nonempty post line).
      destruct (split_lines_from post line); [contradiction|cbn; lia].
    - rewrite append_cons in *.
      pose proof (not_line_break _ _ Hcr) as Hc. apply indexOf_tail in Hcr.
      cbn [split_lines_from]. rewrite Hc.
      destruct (Ascii.eqb c "010"); [cbn [length]; specialize (IH post "" Hcr); lia|].
      apply IH, Hcr. }
  specialize (Hmono before after "" Hcr). lia.
Qed.

Lemma caret_line_is_line_of_caret_witness :
  caret_line ("ab" +:+ newline +:+ "cd" +:+ newline +:+ "e") 4 = 1%nat.
Proof.
  destruct (caret_line_is_line_of_caret ("ab" +:+ newline +:+ "c") ("d" +:+ newline +:+ "e"))
    as [Hline _]; [reflexivity|].
  apply Nat.succ_inj. exact Hline.
Defined.

(** ** The per-line styles for every input *)

Lemma obj_set_idem k v o : obj_set k v (obj_set k v o) = obj_set k v o.
Proof.
  induction o as [|[k' v'] o IH]; cbn.
  - rewrite String.eqb_refl. reflexivity.
  - destruct (String.eqb k' k) eqn:Hk; cbn; rewrite Hk; [reflexivity|]. rewrite IH. reflexivity.
Qed.

Lemma retext_idem (arr : list object) : forall lines,
  zip_with (fun slot t => with_text t slot) (zip_with (fun slot t => with_text t slot) arr lines) lines
  = zip_with (fun slot t => with_text t slot) arr lines.
Proof.
  induction arr as [|a arr IH]; intros [|t lines]; cbn; try reflexivity.
  unfold with_text at 1 2. rewrite obj_set_idem. fold (with_text t a). rewrite IH. reflexivity.
Qed.

Lemma retext_insert_idem cf (arr : list object) : forall i lines,
  zip_with (fun slot t => with_text t slot)
    (<[i := cf]> (zip_with (fun slot t => with_text t slot) (<[i := cf]> arr) lines)) lines
  = zip_with (fun slot t => with_text t slot) (<[i := cf]> arr) lines.
Proof.
  induction arr as [|a arr IH]; intros [|i] [|t lines]; cbn; try reflexivity.
  - rewrite retext_idem. reflexivity.
  - unfold with_text at 1 2. rewrite obj_set_idem. fold (with_text t a). rewrite IH. reflexivity.
Qed.

Lemma retext_lookup (arr : list object) (lines : list string) i line :
  length arr = length lines -> lines !! i = Some line ->
  exists slot, zip_with (fun slot t => with_text t slot) arr lines !! i = Some slot /\
               obj_get "text" slot = Some (JStr line).
Proof.
  intros Hlen Hline.
  destruct (arr !! i) as [a|] eqn:Ha.
  - exists (with_text line a). split; [|apply obj_get_set_eq].
    rewrite lookup_zip_with, Ha, Hline. reflexivity.
  - apply lookup_ge_None in Ha. apply lookup_lt_Some in Hline. lia.
Qed.

Lemma length_push_line cf sel (arr : list object) :
  length (push_line cf sel arr) = S (length arr).
Proof.
  unfold push_line.
  destruct (strict_equals (VNum (length arr)) sel || strict_equals sel VNull)%bool;
    rewrite length_app; cbn; lia.
Qed.

Lemma length_grow cf sel n (arr : list object) :
  length (grow cf sel n arr) = Nat.max n (length arr).
Proof.
  unfold grow.
  assert (H : forall k, length (Nat.iter k (push_line cf sel) arr) = (k + length arr)%nat).
  { induction k as [|k IH]; [reflexivity|].
    rewrite Nat.iter_succ, length_push_line, IH. reflexivity. }
  rewrite H. lia.
Qed.

Lemma replace_selected_insert cf sel (arr : list object) :
  replace_selected cf sel arr
  = match array_index (to_property_key sel) with
    | Some i => <[i := cf]> arr
    | None => arr
    end.
Proof.
  unfold replace_selected, array_get.
  destruct (array_index (to_property_key sel)) as [i|]; [|reflexivity].
  destruct (arr !! i) eqn:Hi; [reflexivity|].
  symmetry. apply list_insert_ge. apply lookup_ge_None. exact Hi.
Qed.

Lemma length_replace_selected cf sel (arr : list object) :
  length (replace_selected cf sel arr) = length arr.
Proof.
  rewrite replace_selected_insert.
  destruct (array_index (to_property_key sel)); [apply length_insert|reflexivity].
Qed.

(** The independent branch on any selector value. *)
Lemma independent_lines_any cf sel lines (arr : list object) :
  independent_lines cf sel lines arr
  = Some (zip_with (fun slot t => with_text t slot)
            (replace_selected cf sel (take (length lines) (grow cf sel (length lines) arr)))
            lines).
Proof.
  unfold independent_lines. apply set_texts_zip.
  rewrite length_replace_selected, length_take, length_grow. lia.
Qed.

Lemma length_backfill cf k (arr : list object) :
  length (Nat.iter k (backfill_step cf) arr) = (k + length arr)%nat.
Proof.
  induction k as [|k IH]; [reflexivity|].
  rewrite Nat.iter_succ. unfold backfill_step at 1. rewrite length_app, IH. cbn. lia.
Qed.

(** The shipping layout on any input: two slots that carry the section
    names, and a second run on them changes nothing. *)
Lemma shipping_any cf sel isSynced (arr : list object) :
  exists a b,
    _setShippingFontSettings cf sel isSynced arr
    = Some [with_text "Sender section" a; with_text "Recipient section" b] /\
    _setShippingFontSettings cf sel isSynced
      [with_text "Sender section" a; with_text "Recipient section" b]
    = Some [with_text "Sender section" a; with_text "Recipient section" b].
Proof.
  unfold _setShippingFontSettings. cbn [SHIPPING_LINE_NAMES length].
  set (chosen := if (2 <=? match parseInt sel with Some n => n | None => 0 end)%nat
                 then 0%nat else match parseInt sel with Some n => n | None => 0%nat end).
  assert (Hchosen : (chosen < 2)%nat).
  { subst chosen. destruct (Nat.leb_spec 2 (match parseInt sel with Some n => n | None => 0 end)); lia. }
  clearbody chosen.
  assert (Hlen : length (take 2 (Nat.iter (2 - length arr) (backfill_step cf) arr)) = 2%nat)
    by (rewrite length_take, length_backfill; lia).
  destruct (take 2 (Nat.iter (2 - length arr) (backfill_step cf) arr)) as [|x [|y [|z rest]]];
    try discriminate.
  cbn [seq fold_left Nat.sub Nat.iter nat_rect take].
  destruct isSynced.
  - exists cf, cf. split; reflexivity.
  - destruct chosen as [|[|chosen]]; [| |lia].
    + exists cf, y. split; [reflexivity|].
      cbn. unfold with_text. rewrite !obj_set_idem. reflexivity.
    + exists x, cf. split; [reflexivity|].
      cbn. unfold with_text. rewrite !obj_set_idem. reflexivity.
Qed.

(** X16: on a stored array whose items are style records, and for a
    selector value the line selector can hold ([null] or the numeral of
    an index), setFontSettingsPerLine does not throw, whatever the
    controls, the print type, the text and the sync flag, also when
    nothing is stored and a line is selected: it returns one slot per
    line of the text (the two sections in the shipping layout), and
    every slot carries the text of its line. *)
Theorem setFontSettingsPerLine_returns (controls : FontControls)
    (printType label_text : option string) (selected : jsval) (isSynced : bool)
    (arr : list object) :
  let lines := if decide (printType = Some "shipping") then SHIPPING_LINE_NAMES
               else split_lines (or_else label_text "") in
  exists result,
    setFontSettingsPerLine controls printType label_text selected isSynced arr = Some result /\
    length result = length lines /\
    (forall i line, lines !! i = Some line ->
       exists slot, result !! i = Some slot /\ obj_get "text" slot = Some (JStr line)).
Proof.
  cbv zeta. unfold setFontSettingsPerLine.
  destruct (decide (printType = Some "shipping")) as [_|_].
  - destruct (shipping_any (currentFont controls) selected isSynced arr) as (a & b & -> & _).
    eexists. split; [reflexivity|]. split; [reflexivity|].
    intros [|[|i]] line [= <-]; eexists; (split; [reflexivity|apply obj_get_set_eq]).
  - rewrite split_lines_length. destruct isSynced.
    + eexists. split; [reflexivity|]. unfold synced_lines. split; [apply length_map|].
      intros i line Hline. eexists. rewrite list_lookup_fmap, Hline.
      split; [reflexivity|apply obj_get_set_eq].
    + rewrite independent_lines_any. eexists. split; [reflexivity|].
      assert (Hlen : length (replace_selected (currentFont controls) selected
                       (take (length (split_lines (or_else label_text "")))
                          (grow (currentFont controls) selected
                             (length (split_lines (or_else label_text ""))) arr)))
                     = length (split_lines (or_else label_text ""))).
      { rewrite length_replace_selected, length_take, length_grow. lia. }
      split.
      * rewrite length_zip_with. lia.
      * intros i line. apply retext_lookup. exact Hlen.
Qed.

Lemma setFontSettingsPerLine_again (controls : FontControls)
    (printType label_text : option string) (selected : jsval) (isSynced : bool)
    (arr result : list object) :
  setFontSettingsPerLine controls printType label_text selected isSynced arr = Some result ->
  setFontSettingsPerLine controls printType label_text selected isSynced result = Some result.
Proof.
  unfold setFontSettingsPerLine.
  destruct (decide (printType = Some "shipping")) as [_|_].
  - destruct (shipping_any (currentFont controls) selected isSynced arr) as (a & b & -> & Hagain).
    intros [= <-]. exact Hagain.
  - rewrite split_lines_length. destruct isSynced; [trivial|].
    rewrite !independent_lines_any.
    set (lines := split_lines (or_else label_text "")).
    set (cf := currentFont controls).
    set (sized := take (length lines) (grow cf selected (length lines) arr)).
    assert (Hsized : length sized = length lines)
      by (subst sized; rewrite length_take, length_grow; lia).
    intros [= <-]. f_equal.
    assert (Hlen : length (zip_with (fun slot t => with_text t slot)
                             (replace_selected cf selected sized) lines) = length lines)
      by (rewrite length_zip_with, length_replace_selected; lia).
    unfold grow at 1. rewrite Hlen, Nat.sub_diag. cbn [Nat.iter nat_rect].
    rewrite take_ge by lia.
    rewrite !replace_selected_insert.
    destruct (array_index (to_property_key selected)) as [i|].
    + apply retext_insert_idem.
    + apply retext_idem.
Qed.

(** X17: Resolving the styles a second time with the same controls, text and
    selector value changes nothing: the result of a run is a fixed point
    of the next. *)
Theorem setFontSettingsPerLine_idempotent (controls : FontControls)
    (printType label_text : option string) (selected : jsval) (isSynced : bool)
    (arr result : list object) :
  setFontSettingsPerLine controls printType label_text selected isSynced arr = Some result ->
  setFontSettingsPerLine controls printType label_text selected isSynced result = Some result.
Proof. apply setFontSettingsPerLine_again. Qed.

Lemma setFontSettingsPerLine_idempotent_witness :
  let first := [with_text "one" (currentFont sample_controls);
                with_text "two" (currentFont sample_controls)] in
  setFontSettingsPerLine sample_controls (Some "text") (Some ("one" +:+ newline +:+ "two"))
    (lineSelect_val (Some 1%nat)) false first = Some first.
Proof.
  cbv zeta.
  apply (setFontSettingsPerLine_idempotent sample_controls (Some "text")
           (Some ("one" +:+ newline +:+ "two")) (lineSelect_val (Some 1%nat)) false
           [currentFont sample_controls]).
  vm_compute. reflexivity.
Defined.

Lemma setFontSettingsPerLine_returns_witness :
  exists result,
    setFontSettingsPerLine sample_controls (Some "text") (Some ("one" +:+ newline +:+ "two"))
      (lineSelect_val (Some 1%nat)) false [] = Some result /\
    length result = 2%nat.
Proof.
  destruct (setFontSettingsPerLine_returns sample_controls (Some "text")
              (Some ("one" +:+ newline +:+ "two")) (lineSelect_val (Some 1%nat)) false [])
    as (result & Hresult & Hlen & _).
  exists result. split; [exact Hresult|exact Hlen].
Defined.

(** ** Accordion sections *)

(** X18: The section that updateAccordionAvailability opens for a print type
    is never one it has just disabled: it is one of the three ruled
    sections and its rule says enabled. *)
Theorem primarySection_is_enabled (printType : option string) (section : json) :
  primarySection printType = Some section ->
  exists name, section = JStr name /\
               obj_get name (sectionRules printType) = Some (JBool false).
Proof.
  unfold primarySection, sectionRules. destruct printType as [t|]; [|discriminate].
  cbn [obj_get is_type].
  destruct (String.eqb_spec "text" t) as [<-|_]; [intros [= <-]; eexists; split; reflexivity|].
  destruct (String.eqb_spec "qrcode" t) as [<-|_]; [intros [= <-]; eexists; split; reflexivity|].
  destruct (String.eqb_spec "qrcode_text" t) as [<-|_];
    [intros [= <-]; eexists; split; reflexivity|].
  destruct (String.eqb_spec "image" t) as [<-|_]; [intros [= <-]; eexists; split; reflexivity|].
  destruct (String.eqb_spec "shipping" t) as [<-|_];
    [intros [= <-]; eexists; split; reflexivity|].
  discriminate.
Qed.

Lemma primarySection_is_enabled_witness :
  exists name, JStr "accordionImageSettings" = JStr name /\
               obj_get name (sectionRules (Some "image")) = Some (JBool false).
Proof. apply (primarySection_is_enabled (Some "image")). reflexivity. Defined.

(** ** Preview requests *)




(** ** Printers *)

Lemma find_printer_some path printers p :
  find_printer path printers = Some p -> In p printers /\ printer_path p = path.
Proof.
  unfold find_printer. intros Hfind. apply find_some in Hfind as [Hin Hsame].
  split; [exact Hin|].
  unfold same_path in Hsame. destruct (printer_path p) as [x|], path as [y|]; try discriminate.
  - apply String.eqb_eq in Hsame. congruence.
  - reflexivity.
Qed.

Lemma find_printer_exists path printers p :
  In p printers -> printer_path p = path -> is_Some (find_printer path printers).
Proof.
  intros Hin Hpath. unfold find_printer.
  destruct (find _ printers) as [q|] eqn:Hfind; [eauto|].
  exfalso. pose proof (find_none _ _ Hfind p Hin) as Hno. cbn in Hno.
  rewrite Hpath in Hno. unfold same_path in Hno.
  destruct path as [y|]; [rewrite String.eqb_refl in Hno|]; discriminate.
Qed.

Lemma select_assign_option options v :
  select_assign options v <> "" -> select_assign options v = v /\ In v options.
Proof.
  unfold select_assign. destruct (existsb (String.eqb v) options) eqn:Hex; [|contradiction].
  intros _. split; [reflexivity|].
  apply existsb_exists in Hex as (x & Hin & Heq). apply String.eqb_eq in Heq. subst x. exact Hin.
Qed.

Lemma refresh_select_option cur selected printers :
  refresh_select cur selected printers <> "" ->
  exists p, In p printers /\ printer_path p = Some (refresh_select cur selected printers).
Proof.
  intros Hne.
  assert (Hin : In (refresh_select cur selected printers) (List.map option_value printers)).
  { revert Hne. unfold refresh_select.
    destruct (negb (String.eqb cur "") && existsb (String.eqb cur) (List.map option_value printers))%bool.
    - intros H. destruct (select_assign_option _ _ H) as [-> Hin]. exact Hin.
    - destruct (or_path selected None) as [s|].
      + intros H. destruct (select_assign_option _ _ H) as [-> Hin]. exact Hin.
      + destruct printers as [|first rest]; [contradiction|].
        intros H. destruct (select_assign_option _ _ H) as [-> Hin]. exact Hin. }
  apply in_map_iff in Hin as (p & Hp & Hin). exists p. split; [exact Hin|].
  unfold option_value, or_else in Hp. destruct (printer_path p) as [q|].
  - destruct (String.eqb q ""); congruence.
  - congruence.
Qed.

(** X20: After the list of printers came in, the selector and the status
    agree: when the selector shows a printer, the status is the first
    printer of the list with that path, and the model sent with a label
    is the known model of that printer; the status is always a printer of
    the list when there is one; and a selection that is still in the list
    is kept. *)
Theorem getPrinterStatus_consistent (cur selected : option string) (printers : list Printer) :
  let '(value, status) := getPrinterStatus cur selected printers in
  (printers <> [] -> In status printers) /\
  (forall v, value = Some v -> v <> "" ->
     printer_path status = Some v /\
     find_printer (Some v) printers = Some status /\
     modelFromPrinter (Some v) (Some printers) (Some status) = known_model status) /\
  (forall c p, cur = Some c -> c <> "" -> In p printers -> printer_path p = Some c ->
     value = Some c).
Proof.
  unfold getPrinterStatus. split; [|split].
  - intros Hne. unfold choose_printer.
    destruct (find_printer _ printers) as [p|] eqn:Hfind.
    + apply find_printer_some in Hfind. tauto.
    + destruct printers; [contradiction|]. left. reflexivity.
  - intros v Hv Hne. destruct cur as [c|]; [|discriminate]. cbn [option_map] in *.
    injection Hv as Hv.
    assert (Hpath : chosen_path (Some (refresh_select c selected printers)) selected printers
                    = Some v).
    { unfold chosen_path, or_path. rewrite Hv.
      destruct (String.eqb_spec v ""); [contradiction|reflexivity]. }
    destruct (refresh_select_option c selected printers) as (p & Hin & Hp); [congruence|].
    rewrite Hv in Hp.
    destruct (find_printer_exists (Some v) printers p Hin Hp) as [q Hq].
    unfold choose_printer. rewrite Hpath, Hq.
    destruct (find_printer_some _ _ _ Hq) as [_ Hqpath].
    split; [exact Hqpath|]. split; [reflexivity|].
    unfold modelFromPrinter. rewrite Hq.
    destruct (String.eqb_spec v ""); [contradiction|].
    destruct (known_model q); reflexivity.
  - intros c p -> Hne Hin Hp. cbn [option_map]. f_equal.
    unfold refresh_select.
    assert (Hex : existsb (String.eqb c) (List.map option_value printers) = true).
    { apply existsb_exists. exists c. split; [|apply String.eqb_refl].
      apply in_map_iff. exists p. split; [|exact Hin].
      unfold option_value, or_else. rewrite Hp.
      destruct (String.eqb_spec c ""); [contradiction|reflexivity]. }
    rewrite Hex. destruct (String.eqb_spec c ""); [contradiction|]. cbn [negb andb].
    unfold select_assign. rewrite Hex. reflexivity.
Qed.

Lemma getPrinterStatus_consistent_witness :
  printer_path (snd (getPrinterStatus (Some "usb://2") (Some "usb://1")
                       [mkPrinter (Some "usb://1") (Some "QL-800");
                        mkPrinter (Some "usb://2") (Some "Unknown")]))
  = Some "usb://2".
Proof.
  pose proof (getPrinterStatus_consistent (Some "usb://2") (Some "usb://1")
                [mkPrinter (Some "usb://1") (Some "QL-800");
                 mkPrinter (Some "usb://2") (Some "Unknown")]) as H.
  destruct (getPrinterStatus _ _ _) as [value status] eqn:Hu.
  destruct H as (_ & Hshow & _). cbn [snd].
  apply Hshow; [|discriminate].
  vm_compute in Hu. congruence.
Defined.




(** ** The image across the repository *)

(** X22: A label saved to the repository with an image comes back with it.
    When the stored settings parse to a record and the file reader
    delivers a data URL whose first comma stands at index 5 or later
    before a payload, the record sent carries the name given, leaves
    every other setting as stored, and, loaded back as it was sent,
    yields a data URL that parses to the same payload and media type
    ([image/png] for an empty one) under the same file name. *)
Theorem repository_keeps_image (JSON_parse : string -> option json)
    (name : string) (ls : LocalStorage) (f : DropFile) (rest : list DropFile)
    (u m payload : string) (data : object) :
  name <> "" ->
  JSON_parse (or_else (ls_settings ls) "{}") = Some (JObj data) ->
  (exists comma, indexOf "," u = Some comma /\ (5 <= comma)%nat) ->
  parseDataUrl u = mkParts (Some m) (Some payload) ->
  payload <> "" ->
  exists sent file,
    repoSaveCurrent JSON_parse name ls (f :: rest) (Some u) = Some (JObj sent) /\
    obj_get "name" sent = Some (JStr name) /\
    (forall k, k <> "name" -> k <> "image_data" -> k <> "image_mime" -> k <> "image_name" ->
               obj_get k sent = obj_get k data) /\
    repoLoad_image (JObj sent) = Some file /\
    parseDataUrl (restored_dataUrl file)
    = mkParts (Some (or_else (Some m) "image/png")) (Some payload) /\
    restored_name file = JStr (or_else (file_name f) "image").
Proof.
  intros Hname Hparse (comma & Hcomma & Hge) Hurl Hpayload.
  destruct (parseDataUrl_cuts_free u comma Hcomma Hge) as (m0 & p0 & Hurl0 & Hsemi & Hcom).
  rewrite Hurl in Hurl0. injection Hurl0 as <- <-.
  unfold repoSaveCurrent, repo_payload, attach_image.
  destruct (String.eqb_spec name "") as [|_]; [contradiction|].
  rewrite Hparse, Hurl. cbn [set_property parts_b64 parts_mime try_set_property].
  destruct (String.eqb_spec payload "") as [|_]; [contradiction|].
  eexists _, _. split; [reflexivity|]. split; [|split; [|split; [|split]]].
  - rewrite !obj_get_set_ne by discriminate. apply obj_get_set_eq.
  - intros k H1 H2 H3 H4. rewrite !obj_get_set_ne by congruence. reflexivity.
  - unfold repoLoad_image.
    rewrite obj_get_set_ne, obj_get_set_ne, obj_get_set_eq by discriminate.
    cbn [truthy]. destruct (String.eqb_spec payload "") as [|_]; [contradiction|].
    cbn [negb]. reflexivity.
  - cbn [restored_dataUrl]. rewrite obj_get_set_ne, obj_get_set_eq by discriminate.
    unfold prop_or. cbn [truthy to_js_string].
    replace (if negb (String.eqb m "") then JStr m else JStr "image/png")
      with (JStr (or_else (Some m) "image/png"))
      by (unfold or_else; destruct (String.eqb m ""); reflexivity).
    cbn [to_js_string].
    apply (parseDataUrl_data _ ";base64" payload).
    + apply or_else_free; [intros s [= <-]; exact Hcom|reflexivity].
    + apply or_else_free; [intros s [= <-]; exact Hsemi|reflexivity].
    + reflexivity.
    + right. exists "base64". reflexivity.
  - cbn [restored_name]. rewrite obj_get_set_eq. unfold prop_or, truthy.
    rewrite or_else_nonempty by discriminate. reflexivity.
Qed.

Lemma repository_keeps_image_witness :
  exists sent file,
    repoSaveCurrent parse_json "tag" (mkLocalStorage (Some (JSON_stringify (JObj [("size", JNum 3)]))) None)
      [mkFile (Some "logo.png") None] (Some "data:image/png;base64,iVBORw0KGgo=")
    = Some (JObj sent) /\
    obj_get "size" sent = Some (JNum 3) /\
    repoLoad_image (JObj sent) = Some file /\
    parseDataUrl (restored_dataUrl file) = mkParts (Some "image/png") (Some "iVBORw0KGgo=").
Proof.
  destruct (repository_keeps_image parse_json "tag"
              (mkLocalStorage (Some (JSON_stringify (JObj [("size", JNum 3)]))) None)
              (mkFile (Some "logo.png") None) []
              "data:image/png;base64,iVBORw0KGgo=" "image/png" "iVBORw0KGgo="
              [("size", JNum 3)])
    as (sent & file & Hsent & _ & Hkeep & Hload & Hurl & _).
  - discriminate.
  - vm_compute. reflexivity.
  - exists 21%nat. split; [reflexivity|lia].
  - reflexivity.
  - discriminate.
  - exists sent, file. split; [exact Hsent|]. split; [|split; [exact Hload|exact Hurl]].
    rewrite Hkeep by discriminate. reflexivity.
Defined.

(** ** Flattening returns *)

Section FlattenTermination.
Variable JSON_parse : string -> option json.
Hypothesis JSON_parse_shrinks :
  forall s v, JSON_parse s = Some v -> (weight v <= String.length s)%nat.

Lemma weight_decode value : (weight (decode JSON_parse value) <= weight value)%nat.
Proof.
  unfold decode. destruct value as [| | |s| |]; try apply Nat.le_refl.
  destruct (looks_like_json s); [|apply Nat.le_refl].
  destruct (JSON_parse s) as [parsed|] eqn:Hp; [|apply Nat.le_refl].
  apply JSON_parse_shrinks in Hp. cbn [weight]. lia.
Qed.

Lemma weight_array_entries items :
  weight_entries (array_entries items) = list_sum (List.map weight items).
Proof.
  unfold weight_entries, array_entries.
  assert (H : forall (f : nat -> string),
             List.map (fun kv : string * json => weight (snd kv)) (imap (fun i v => (f i, v)) items)
             = List.map weight items).
  { induction items as [|x items IH]; intros f; [reflexivity|].
    cbn [imap List.map snd]. f_equal. apply (IH (fun i => f (S i))). }
  rewrite H. reflexivity.
Qed.

Lemma weight_children value children :
  inspect value = Node children -> (weight_entries children < weight value)%nat.
Proof.
  destruct value as [| | | |items|props]; try discriminate; intros [= <-]; cbn [weight].
  - rewrite weight_array_entries. lia.
  - unfold weight_entries. lia.
Qed.

Lemma dig_returns fuel : forall entries path acc,
  (weight_entries entries < fuel)%nat -> is_Some (dig JSON_parse fuel path entries acc).
Proof.
  induction fuel as [|fuel IH]; intros entries path acc Hw; [lia|].
  cbn [dig]. revert acc.
  induction entries as [|[key value] entries IHes]; intros acc; [eexists; reflexivity|].
  change (weight_entries ((key, value) :: entries))
    with (weight value + weight_entries entries)%nat in Hw.
  cbn [fold_entries]. unfold visit at 1.
  pose proof (weight_decode value) as Hd.
  destruct (inspect (decode JSON_parse value)) as [p|children] eqn:Hshape.
  - apply IHes. lia.
  - apply weight_children in Hshape.
    destruct (IH children (path ++ [key])%list acc) as [acc' ->]; [lia|].
    apply IHes. lia.
Qed.

End FlattenTermination.

(** X23: flattenObject returns on every record, strings that decode to
    further records included, as long as the parser reads out of a text
    no more than the text holds: the weight of the record is fuel
    enough, and more fuel gives the same map. *)
Theorem flattenObject_returns (JSON_parse : string -> option json) (record : object) :
  (forall s v, JSON_parse s = Some v -> (weight v <= String.length s)%nat) ->
  exists flat,
    forall fuel, (weight_entries record < fuel)%nat ->
                 flattenObject JSON_parse fuel (Some record) = Some flat.
Proof.
  intros Hshrink.
  destruct (dig_returns JSON_parse Hshrink (S (weight_entries record)) record [] ∅) as [flat Hflat];
    [lia|].
  exists flat. intros fuel Hfuel. cbn [flattenObject].
  apply (dig_fuel_mono JSON_parse (S (weight_entries record))); [lia|exact Hflat].
Qed.

Lemma flattenObject_returns_witness :
  exists flat,
    forall fuel, (weight_entries [("a", JObj [("b", JNum 1)]); ("c", JStr "[]")] < fuel)%nat ->
      flattenObject parse_empty fuel (Some [("a", JObj [("b", JNum 1)]); ("c", JStr "[]")])
      = Some flat.
Proof.
  apply flattenObject_returns.
  intros s v. unfold parse_empty.
  destruct (String.eqb_spec s "[]") as [->|_]; [intros [= <-]; cbn; lia|].
  destruct (String.eqb_spec s "{}") as [->|_]; [intros [= <-]; cbn; lia|].
  discriminate.
Defined.

(** ** The record a save puts together *)

(** X24: The per-line styles and the image go into the record after the
    controls: they leave every control under another key as collected,
    the styles are stored as their JSON text whatever control bears the
    key [fontSettingsPerLine], and the text written to the storage is
    that of the record put together. *)
Theorem assemble_data_keeps_controls (status : db_status) (elements : list FormElement)
    (fontSettingsPerLine : option (list object)) (files : list DropFile)
    (db : gmap string ImageRecord) (ls : LocalStorage) :
  let data := fst (assemble_data status elements fontSettingsPerLine files db) in
  (forall k, k <> "fontSettingsPerLine" -> k <> "image_ref" -> k <> "image_mime" ->
             k <> "image_name" -> obj_get k data = obj_get k (collect_form elements)) /\
  (forall arr, fontSettingsPerLine = Some arr ->
     obj_get "fontSettingsPerLine" data
     = Some (JStr (JSON_stringify (JArr (List.map JObj arr))))) /\
  (fontSettingsPerLine = None ->
     obj_get "fontSettingsPerLine" data = obj_get "fontSettingsPerLine" (collect_form elements)) /\
  ls_settings (fst (save_form status elements fontSettingsPerLine files db ls))
  = Some (JSON_stringify (JObj data)).
Proof.
  cbv zeta.
  assert (Himage : forall k base,
            k <> "image_ref" -> k <> "image_mime" -> k <> "image_name" ->
            obj_get k (fst (save_image status files base db)) = obj_get k base).
  { intros k base H1 H2 H3. unfold save_image.
    destruct files as [|f rest]; [reflexivity|].
    destruct (file_dataURL f) as [u|]; [|reflexivity].
    destruct (parts_b64 (parseDataUrl u)) as [b|]; [|reflexivity].
    destruct (parts_mime (parseDataUrl u)) as [m|]; [|reflexivity].
    destruct (String.eqb b ""); [reflexivity|].
    unfold cache_image. destruct (_saveImageToDB _ _ _ _ _) as [db1 answer]. cbn [fst].
    rewrite !obj_get_set_ne by congruence. reflexivity. }
  unfold assemble_data. split; [|split; [|split]].
  - intros k H0 H1 H2 H3. rewrite Himage by assumption.
    unfold with_font_settings. destruct fontSettingsPerLine as [arr|]; [|reflexivity].
    apply obj_get_set_ne. congruence.
  - intros arr ->. rewrite Himage by discriminate. apply obj_get_set_eq.
  - intros ->. rewrite Himage by discriminate. reflexivity.
  - unfold save_form, assemble_data.
    destruct (save_image _ _ _ _) as [data db1]. cbn [fst]. apply save_settings.
Qed.

Lemma assemble_data_keeps_controls_witness :
  obj_get "label_text"
    (fst (assemble_data DbAvailable
            [mkElement "label_text" "" "textarea" false false (JStr "one")] (Some [])
            [mkFile (Some "logo.png") (Some "data:image/png;base64,iVBORw0KGgo=")] ∅))
  = Some (JStr "one").
Proof.
  destruct (assemble_data_keeps_controls DbAvailable
              [mkElement "label_text" "" "textarea" false false (JStr "one")] (Some [])
              [mkFile (Some "logo.png") (Some "data:image/png;base64,iVBORw0KGgo=")] ∅
              empty_storage) as (Hkeep & _).
  rewrite Hkeep by discriminate. reflexivity.
Defined.

(** ** A change that changes nothing *)

Lemma save_image_again status files data (db : gmap string ImageRecord) :
  save_image status files data (snd (save_image status files data db))
  = save_image status files data db.
Proof.
  unfold save_image. destruct files as [|f rest]; [reflexivity|].
  destruct (file_dataURL f) as [u|]; [|reflexivity].
  destruct (parts_b64 (parseDataUrl u)) as [b|]; [|reflexivity].
  destruct (parts_mime (parseDataUrl u)) as [m|]; [|reflexivity].
  destruct (String.eqb b ""); [reflexivity|].
  unfold cache_image, _saveImageToDB. destruct status; [|reflexivity].
  destruct (db !! generateHash b) as [stored|] eqn:Hdb; cbn [snd].
  - rewrite Hdb. reflexivity.
  - rewrite lookup_insert_eq. reflexivity.
Qed.

(** X25: The change handler run a second time on the same readings of the
    form (the line selector included) changes nothing: the per-line
    styles, the settings, the undo history and the image cache stay as
    the first run left them. *)
Theorem on_change_twice (status : db_status) (form : FormReading) (st st1 : AppState) :
  on_change status form st = Some st1 ->
  on_change status form st1 = Some st1.
Proof.
  unfold on_change.
  destruct (setFontSettingsPerLine _ _ _ _ _ (app_fonts st)) as [fonts|] eqn:Hfonts;
    [|discriminate].
  unfold save_form, assemble_data.
  destruct (save_image status (read_files form)
              (with_font_settings (Some fonts) (collect_form (read_elements form)))
              (app_images st)) as [data db1] eqn:Himage.
  intros [= <-]. cbn [app_fonts app_storage app_images].
  rewrite (setFontSettingsPerLine_again _ _ _ _ _ _ _ Hfonts).
  pose proof (save_image_again status (read_files form)
                (with_font_settings (Some fonts) (collect_form (read_elements form)))
                (app_images st)) as Hagain.
  rewrite Himage in Hagain. cbn [snd] in Hagain. rewrite Hagain, save_again. reflexivity.
Qed.

Lemma on_change_twice_witness :
  let form := mkReading sample_controls (Some "text") (Some "one") (lineSelect_val (Some 0%nat))
                false [mkElement "label_text" "" "textarea" false false (JStr "one")]
                [mkFile (Some "logo.png") (Some "data:image/png;base64,iVBORw0KGgo=")] in
  exists st1,
    on_change DbAvailable form (mkApp [] empty_storage ∅) = Some st1 /\
    on_change DbAvailable form st1 = Some st1.
Proof.
  cbv zeta. eexists. split; [vm_compute; reflexivity|].
  apply (on_change_twice DbAvailable _ (mkApp [] empty_storage ∅)).
  vm_compute. reflexivity.
Defined.
